(** * generateDraft.ts: the draft-generation pipeline

    A shallow embedding of [src/services/generateDraft.ts]: provider
    selection from the two API keys, the chat-completion call, the clean-up
    of the returned text, [JSON.parse], the selection of the item array and
    the rendering of the draft.

    JavaScript strings are sequences of UTF-16 code units; they are modelled
    as lists of code units.  What the function reads from its host (the
    process environment, the clock, the completion endpoint, and two
    conversions of the JavaScript engine) is a variable of the section
    [GenerateDraft]. *)

From Stdlib Require Import String Ascii DecimalString.
From Stdlib Require Import List NArith ZArith Bool Lia.
Import ListNotations.

Local Open Scope N_scope.

(** ** Strings *)

Definition code_unit : Type := N.
Definition jsstring : Type := list code_unit.

(** An ASCII literal, code unit by code unit. *)
Fixpoint u (s : string) : jsstring :=
  match s with
  | EmptyString => []
  | String c s' => N_of_ascii c :: u s'
  end.

(** An ASCII literal in which an apostrophe stands for the double quote
    (code unit 34); used to write JSON texts. *)
Definition q (s : string) : jsstring :=
  map (fun c => if c =? 39 then 34 else c) (u s).

Definition LF : code_unit := 10.
Definition BULLET : code_unit := 8226.          (* U+2022 *)
Definition ROCKET : jsstring := [55357; 56960]. (* U+1F680 as a surrogate pair *)

Fixpoint eqb_str (a b : jsstring) : bool :=
  match a, b with
  | [], [] => true
  | x :: a', y :: b' => (x =? y) && eqb_str a' b'
  | _, _ => false
  end.

(** [strip_prefix p s] is [Some r] when [s = p ++ r]. *)
Fixpoint strip_prefix (p s : jsstring) : option jsstring :=
  match p with
  | [] => Some s
  | x :: p' =>
      match s with
      | y :: s' => if x =? y then strip_prefix p' s' else None
      | [] => None
      end
  end.

Fixpoint dropWhile (f : code_unit -> bool) (s : jsstring) : jsstring :=
  match s with
  | [] => []
  | c :: s' => if f c then dropWhile f s' else s
  end.

(** [Array.prototype.join] on an array of strings. *)
Fixpoint join (sep : jsstring) (l : list jsstring) : jsstring :=
  match l with
  | [] => []
  | [x] => x
  | x :: l' => x ++ sep ++ join sep l'
  end.

(** The class [\s] of a regular expression, which is also what
    [String.prototype.trim] removes: WhiteSpace and LineTerminator. *)
Definition is_space (c : code_unit) : bool :=
  (c =? 9) || (c =? 10) || (c =? 11) || (c =? 12) || (c =? 13) || (c =? 32)
  || (c =? 160) || (c =? 5760) || ((8192 <=? c) && (c <=? 8202))
  || (c =? 8232) || (c =? 8233) || (c =? 8239) || (c =? 8287)
  || (c =? 12288) || (c =? 65279).

Definition trim (s : jsstring) : jsstring :=
  rev (dropWhile is_space (rev (dropWhile is_space s))).

(** ** The clean-up of the completion text (lines 83-86) *)

Definition FENCE : jsstring := u "```".
Definition FENCE_JSON : jsstring := u "```json".

(** One match of [/```json\s*/] anchored at the head of [s]: the text left
    after the match. [\s*] is greedy and nothing follows it. *)
Definition match_fence_json (s : jsstring) : option jsstring :=
  match strip_prefix FENCE_JSON s with
  | Some r => Some (dropWhile is_space r)
  | None => None
  end.

(** [.replace(/```json\s*/g, '')]: scan from the left; at a match drop it and
    go on after it, else keep the code unit and go on. A match is never
    empty, so [length s] steps are enough ([replace_fence_json_eq]). *)
Fixpoint replace_fence_json_from (steps : nat) (s : jsstring) : jsstring :=
  match steps with
  | O => s
  | S steps' =>
      match match_fence_json s with
      | Some r => replace_fence_json_from steps' r
      | None =>
          match s with
          | [] => []
          | c :: s' => c :: replace_fence_json_from steps' s'
          end
      end
  end.

Definition replace_fence_json (s : jsstring) : jsstring :=
  replace_fence_json_from (length s) s.

(** One match of [/```\s*$/] anchored at the head of [s]: the fence and then
    only white space up to the end of the text (no [m] flag). *)
Definition match_fence_end (s : jsstring) : bool :=
  match strip_prefix FENCE s with
  | Some r => forallb is_space r
  | None => false
  end.

(** [.replace(/```\s*$/g, '')]: the leftmost match runs to the end of the
    text, so there is at most one. *)
Fixpoint replace_fence_end (s : jsstring) : jsstring :=
  match s with
  | [] => []
  | c :: s' => if match_fence_end s then [] else c :: replace_fence_end s'
  end.

Definition cleanJSON (rawJSON : jsstring) : jsstring :=
  trim (replace_fence_end (replace_fence_json rawJSON)).

(** ** Values *)

#[local] Set Warnings "-register-all".

(** A number as [JSON.parse] reads it: the decimal numeral's exact value,
    (-1)^neg * mantissa * 10^exp10. The Number it denotes is the nearest
    double; the program only ever asks whether that double is zero and for
    its string conversion. *)
Record JNumber : Type := mkNumber {
  neg : bool;
  mantissa : N;
  exp10 : Z
}.

Definition number_of_nat (n : nat) : JNumber := mkNumber false (N.of_nat n) 0.

(** The nearest double is +0 or -0: the numeral is zero, or its magnitude is
    at most 2^-1075, half of the least positive double (ties go to the even
    significand, which is zero). *)
Definition is_zero (n : JNumber) : bool :=
  (mantissa n =? 0)
  || ((exp10 n <? 0)%Z
      && (Z.of_N (mantissa n) * 2 ^ 1075 <=? 10 ^ (- exp10 n))%Z).

(** The functions of the standard library that a property read of this
    program can reach. *)
Inductive builtin : Type :=
| Array_prototype_map
| String_prototype_link.

Inductive value : Type :=
| VUndefined
| VNull
| VBool (b : bool)
| VNumber (n : JNumber)
| VString (s : jsstring)
| VArray (elems : list value)
| VObject (props : list (jsstring * value))
| VFunction (f : builtin).

Inductive exn : Type :=
| Error (message : jsstring)
| TypeError
| SyntaxError
| APIError (detail : jsstring).

Inductive result (A : Type) : Type :=
| Ok (a : A)
| Throw (e : exn).
Arguments Ok {A} a.
Arguments Throw {A} e.

Definition bind {A B : Type} (r : result A) (k : A -> result B) : result B :=
  match r with
  | Ok a => k a
  | Throw e => Throw e
  end.

Notation "x <- r ;; k" := (bind r (fun x => k))
  (at level 61, r at next level, right associativity).

Fixpoint mapM {A B : Type} (f : A -> result B) (l : list A) : result (list B) :=
  match l with
  | [] => Ok []
  | a :: l' => b <- f a ;; bs <- mapM f l' ;; Ok (b :: bs)
  end.

(** ** JSON.parse *)

Module JSON.

(** Outcome of a parsing function: the value read and the text left, a
    syntax error, or recursion budget used up (which [parse] never reports,
    see [parse_text_fuel]). *)
Inductive presult (A : Type) : Type :=
| Parsed (a : A) (rest : jsstring)
| Invalid
| OutOfFuel.
Arguments Parsed {A} a rest.
Arguments Invalid {A}.
Arguments OutOfFuel {A}.

Definition is_ws (c : code_unit) : bool :=
  (c =? 9) || (c =? 10) || (c =? 13) || (c =? 32).

Definition skip_ws (s : jsstring) : jsstring := dropWhile is_ws s.

Definition is_digit (c : code_unit) : bool := (48 <=? c) && (c <=? 57).

Fixpoint span_digits (s : jsstring) : jsstring * jsstring :=
  match s with
  | [] => ([], [])
  | c :: s' =>
      if is_digit c
      then let (ds, r) := span_digits s' in (c :: ds, r)
      else ([], s)
  end.

Definition digits_value (ds : jsstring) : N :=
  fold_left (fun a d => 10 * a + (d - 48)) ds 0.

(** Optional fraction: a dot and at least one digit. *)
Definition parse_frac (s : jsstring) : option (jsstring * jsstring) :=
  match strip_prefix (u ".") s with
  | Some r =>
      match span_digits r with
      | ([], _) => None
      | (ds, r') => Some (ds, r')
      end
  | None => Some ([], s)
  end.

Definition parse_exp_digits (sign : Z) (s : jsstring) : option (Z * jsstring) :=
  match span_digits s with
  | ([], _) => None
  | (ds, r) => Some ((sign * Z.of_N (digits_value ds))%Z, r)
  end.

(** Optional exponent: e or E, an optional sign, at least one digit. *)
Definition parse_exp (s : jsstring) : option (Z * jsstring) :=
  match s with
  | c :: r =>
      if (c =? 101) || (c =? 69) then
        match strip_prefix (u "+") r with
        | Some r' => parse_exp_digits 1 r'
        | None =>
            match strip_prefix (u "-") r with
            | Some r' => parse_exp_digits (-1) r'
            | None => parse_exp_digits 1 r
            end
        end
      else Some (0%Z, s)
  | [] => Some (0%Z, s)
  end.

(** The integer part: 0, or a digit 1-9 and more digits. *)
Definition parse_int (s : jsstring) : option (jsstring * jsstring) :=
  match s with
  | c :: r =>
      if c =? 48 then Some ([c], r)
      else if is_digit c then let (ds, r') := span_digits r in Some (c :: ds, r')
      else None
  | [] => None
  end.

(** A number: optional minus, integer part, fraction, exponent. *)
Definition parse_number (s : jsstring) : option (JNumber * jsstring) :=
  let (sign, s1) :=
    match strip_prefix (u "-") s with
    | Some r => (true, r)
    | None => (false, s)
    end in
  match parse_int s1 with
  | None => None
  | Some (int, s2) =>
      match parse_frac s2 with
      | None => None
      | Some (frac, s3) =>
          match parse_exp s3 with
          | None => None
          | Some (e, s4) =>
              Some (mkNumber sign (digits_value (int ++ frac))
                      (e - Z.of_nat (length frac))%Z, s4)
          end
      end
  end.

Definition hex_digit (c : code_unit) : option N :=
  if is_digit c then Some (c - 48)
  else if (97 <=? c) && (c <=? 102) then Some (c - 87)
  else if (65 <=? c) && (c <=? 70) then Some (c - 55)
  else None.

Definition hex4 (a b c d : code_unit) : option code_unit :=
  match hex_digit a, hex_digit b, hex_digit c, hex_digit d with
  | Some x, Some y, Some z, Some w => Some (((x * 16 + y) * 16 + z) * 16 + w)
  | _, _, _, _ => None
  end.

(** The characters of a string after its opening quote, up to the closing
    one. Code units below 32 must be escaped; any other code unit stands for
    itself. [acc] holds the code units read so far, last first. *)
Fixpoint parse_chars (s : jsstring) (acc : jsstring) : option (jsstring * jsstring) :=
  match s with
  | [] => None
  | c :: r =>
      if c =? 34 then Some (rev acc, r)
      else if c =? 92 then
        match r with
        | e :: r' =>
            if e =? 34 then parse_chars r' (34 :: acc)
            else if e =? 92 then parse_chars r' (92 :: acc)
            else if e =? 47 then parse_chars r' (47 :: acc)
            else if e =? 98 then parse_chars r' (8 :: acc)
            else if e =? 102 then parse_chars r' (12 :: acc)
            else if e =? 110 then parse_chars r' (10 :: acc)
            else if e =? 114 then parse_chars r' (13 :: acc)
            else if e =? 116 then parse_chars r' (9 :: acc)
            else if e =? 117 then
              match r' with
              | h1 :: h2 :: h3 :: h4 :: r'' =>
                  match hex4 h1 h2 h3 h4 with
                  | Some x => parse_chars r'' (x :: acc)
                  | None => None
                  end
              | _ => None
              end
            else None
        | [] => None
        end
      else if c <? 32 then None
      else parse_chars r (c :: acc)
  end.

Definition parse_literal (lit : jsstring) (v : value) (s : jsstring)
  : presult value :=
  match strip_prefix lit s with
  | Some r => Parsed v r
  | None => Invalid
  end.

(** Recursive descent over the JSON grammar. [parse_elements] reads the
    elements of an array after its bracket, [parse_members] the members of an
    object after its brace; both carry what was read so far, last first.
    Every recursive call spends one unit of [fuel]. *)
Fixpoint parse_value (fuel : nat) (s : jsstring) : presult value :=
  match fuel with
  | O => OutOfFuel
  | S fuel' =>
      match s with
      | [] => Invalid
      | c :: r =>
          if c =? 123 then
            match strip_prefix (u "}") (skip_ws r) with
            | Some r' => Parsed (VObject []) r'
            | None => parse_members fuel' (skip_ws r) []
            end
          else if c =? 91 then
            match strip_prefix (u "]") (skip_ws r) with
            | Some r' => Parsed (VArray []) r'
            | None => parse_elements fuel' (skip_ws r) []
            end
          else if c =? 34 then
            match parse_chars r [] with
            | Some (str, r') => Parsed (VString str) r'
            | None => Invalid
            end
          else if c =? 116 then parse_literal (u "true") (VBool true) s
          else if c =? 102 then parse_literal (u "false") (VBool false) s
          else if c =? 110 then parse_literal (u "null") VNull s
          else
            match parse_number s with
            | Some (n, r') => Parsed (VNumber n) r'
            | None => Invalid
            end
      end
  end

with parse_elements (fuel : nat) (s : jsstring) (acc : list value)
  : presult value :=
  match fuel with
  | O => OutOfFuel
  | S fuel' =>
      match parse_value fuel' s with
      | Parsed v r =>
          match strip_prefix (u ",") (skip_ws r) with
          | Some r' => parse_elements fuel' (skip_ws r') (v :: acc)
          | None =>
              match strip_prefix (u "]") (skip_ws r) with
              | Some r' => Parsed (VArray (rev (v :: acc))) r'
              | None => Invalid
              end
          end
      | Invalid => Invalid
      | OutOfFuel => OutOfFuel
      end
  end

with parse_members (fuel : nat) (s : jsstring) (acc : list (jsstring * value))
  : presult value :=
  match fuel with
  | O => OutOfFuel
  | S fuel' =>
      match strip_prefix [34] s with
      | Some r =>
          match parse_chars r [] with
          | Some (key, r1) =>
              match strip_prefix (u ":") (skip_ws r1) with
              | Some r2 =>
                  match parse_value fuel' (skip_ws r2) with
                  | Parsed v r3 =>
                      match strip_prefix (u ",") (skip_ws r3) with
                      | Some r4 =>
                          parse_members fuel' (skip_ws r4) ((key, v) :: acc)
                      | None =>
                          match strip_prefix (u "}") (skip_ws r3) with
                          | Some r4 =>
                              Parsed (VObject (rev ((key, v) :: acc))) r4
                          | None => Invalid
                          end
                      end
                  | Invalid => Invalid
                  | OutOfFuel => OutOfFuel
                  end
              | None => Invalid
              end
          | None => Invalid
          end
      | None => Invalid
      end
  end.

(** A JSON text: one value between optional white space, and nothing else. *)
Definition parse_text (fuel : nat) (s : jsstring) : presult value :=
  match parse_value fuel (skip_ws s) with
  | Parsed v r =>
      match skip_ws r with
      | [] => Parsed v []
      | _ => Invalid
      end
  | Invalid => Invalid
  | OutOfFuel => OutOfFuel
  end.

Definition fuel_for (s : jsstring) : nat := 2 * length s + 2.

(** [JSON.parse(text)]. The last case never runs ([parse_text_fuel]). *)
Definition parse (text : jsstring) : result value :=
  match parse_text (fuel_for text) text with
  | Parsed v _ => Ok v
  | Invalid => Throw SyntaxError
  | OutOfFuel => Throw SyntaxError
  end.

End JSON.

(** ** The JavaScript operations the function uses *)

Definition ToBoolean (v : value) : bool :=
  match v with
  | VUndefined | VNull => false
  | VBool b => b
  | VNumber n => negb (is_zero n)
  | VString [] => false
  | VString (_ :: _) => true
  | VArray _ | VObject _ | VFunction _ => true
  end.

(** An object built by [JSON.parse] from a text that repeats a key holds the
    last value given for it. *)
Fixpoint own_property (props : list (jsstring * value)) (key : jsstring)
  : option value :=
  match props with
  | [] => None
  | (k, v) :: props' =>
      match own_property props' key with
      | Some v' => Some v'
      | None => if eqb_str k key then Some v else None
      end
  end.

(** [v.key] for the property names the function reads
    ([interestingTweetsOrStories], [stories], [length], [map],
    [description], [headline], [story_or_tweet_link], [link]), with the
    prototypes of the standard library: of these names [Array.prototype] has
    [map], [String.prototype] has [link], arrays and strings have their
    [length], and [Object.prototype], [Number.prototype] and
    [Boolean.prototype] have none. *)
Definition Get (v : value) (key : jsstring) : result value :=
  match v with
  | VUndefined | VNull => Throw TypeError
  | VBool _ | VNumber _ => Ok VUndefined
  | VString s =>
      if eqb_str key (u "length") then Ok (VNumber (number_of_nat (length s)))
      else if eqb_str key (u "link") then Ok (VFunction String_prototype_link)
      else Ok VUndefined
  | VArray elems =>
      if eqb_str key (u "length") then Ok (VNumber (number_of_nat (length elems)))
      else if eqb_str key (u "map") then Ok (VFunction Array_prototype_map)
      else Ok VUndefined
  | VObject props =>
      match own_property props key with
      | Some x => Ok x
      | None => Ok VUndefined
      end
  | VFunction _ =>
      if eqb_str key (u "length") then Ok (VNumber (number_of_nat 1))
      else Ok VUndefined
  end.

(** [v === 0]. *)
Definition strict_equals_zero (v : value) : bool :=
  match v with
  | VNumber n => is_zero n
  | _ => false
  end.

(** [this.map(callback)] for a callback that returns strings: only an array
    has a callable [map]. *)
Definition call_map (this : value) (callback : value -> result jsstring)
  : result (list jsstring) :=
  f <- Get this (u "map") ;;
  match f, this with
  | VFunction Array_prototype_map, VArray elems => mapM callback elems
  | _, _ => Throw TypeError
  end.

(** ** The host *)

Record Env : Type := mkEnv {
  OPENAI_API_KEY : option jsstring;
  DEEPSEEK_API_KEY : option jsstring
}.

Inductive Role : Type := system | user.

Record ChatMessage : Type := mkMessage {
  role : Role;
  content : jsstring
}.

(** What one call of [new OpenAI({baseURL, apiKey}).chat.completions.create
    ({model, messages})] sends. *)
Record Request : Type := mkRequest {
  baseURL : jsstring;
  apiKey : option jsstring;
  model : jsstring;
  messages : list ChatMessage
}.

(** The part of the answer that the function reads:
    [completion.choices[0].message.content], a string or [null]. *)
Module Response.
Record Message : Type := mkMessage { content : option jsstring }.
Record Choice : Type := mkChoice { message : Message }.
Record ChatCompletion : Type := mkCompletion { choices : list Choice }.
End Response.

Inductive event : Type :=
| ConsoleLog (text : jsstring)
| ConsoleError (text : jsstring) (error : exn)
| ChatCompletionsCreate (request : Request).

(** A computation that writes events and returns or throws. *)
Definition M (A : Type) : Type := (list event * result A)%type.

Definition ret {A : Type} (a : A) : M A := ([], Ok a).
Definition raise {A : Type} (e : exn) : M A := ([], Throw e).
Definition lift {A : Type} (r : result A) : M A := ([], r).
Definition emit (ev : event) : M unit := ([ev], Ok tt).

Definition bindM {A B : Type} (m : M A) (k : A -> M B) : M B :=
  match m with
  | (t, Ok a) => let (t', r) := k a in (t ++ t', r)
  | (t, Throw e) => (t, Throw e)
  end.

Definition try_catch {A : Type} (body : M A) (handler : exn -> M A) : M A :=
  match body with
  | (t, Throw e) => let (t', r) := handler e in (t ++ t', r)
  | (t, Ok a) => (t, Ok a)
  end.

Notation "x <~ m ;; k" := (bindM m (fun x => k))
  (at level 61, m at next level, right associativity).
Notation "m ;;; k" := (bindM m (fun _ => k))
  (at level 61, right associativity).

Definition events {A : Type} (m : M A) : list event := fst m.
Definition outcome {A : Type} (m : M A) : result A := snd m.

(** [!!process.env.NAME]: the variable is set and not empty. *)
Definition is_set (key : option jsstring) : bool :=
  match key with
  | Some (_ :: _) => true
  | _ => false
  end.

Definition OPENAI_URL : jsstring := u "https://api.openai.com".
Definition DEEPSEEK_URL : jsstring := u "https://api.deepseek.com".

Definition SYSTEM_PROMPT : jsstring :=
  u "You are a helpful assistant that creates a concise, bullet-pointed draft post based on input stories and tweets. "
  ++ u "Return strictly valid JSON that has a key 'interestingTweetsOrStories' containing an array of items. "
  ++ u "Each item should have a 'description' and a 'story_or_tweet_link' key.".

Definition NO_KEYS : jsstring :=
  u "No API keys found. Please provide either OPENAI_API_KEY or DEEPSEEK_API_KEY in your .env file.".

Definition ERROR_DRAFT : jsstring := u "Error generating draft post.".
Definition NO_OUTPUT : jsstring := u "No output.".
Definition NO_STORIES : jsstring :=
  u "No trending stories or tweets found at this time.".

(** [completion.choices[0].message.content]. *)
Definition first_content (completion : Response.ChatCompletion)
  : result (option jsstring) :=
  match Response.choices completion with
  | [] => Throw TypeError
  | choice :: _ => Ok (Response.content (Response.message choice))
  end.

(** ** getCronSources (lines 119-145) *)

Module Sources.

(** The two variables of [process.env] that the function reads. *)
Record Env : Type := mkEnv {
  X_API_BEARER_TOKEN : option jsstring;
  FIRECRAWL_API_KEY : option jsstring
}.

Record Source : Type := mkSource { identifier : jsstring }.

(** [console.log(text)] and [console.error(error)]. *)
Inductive line : Type :=
| Log (text : jsstring)
| ErrorLine (error : exn).

Definition CNX_SOFTWARE : Source := mkSource (u "https://www.cnx-software.com").
Definition ANDROIDPIMP : Source := mkSource (u "https://www.androidpimp.com").
Definition LILIPUTING : Source := mkSource (u "https://liliputing.com").
Definition ORANGEPI : Source := mkSource (u "https://x.com/orangepixunlong").

(** Lines 121-140, the body of [try]: nothing in it throws. *)
Definition try_block (env : Env) : list line * result (list Source) :=
  let hasXApiKey := is_set (X_API_BEARER_TOKEN env) in
  let hasFirecrawlKey := is_set (FIRECRAWL_API_KEY env) in
  let sources :=
    (if hasFirecrawlKey then [CNX_SOFTWARE; ANDROIDPIMP; LILIPUTING] else [])
    ++ (if hasXApiKey then [ORANGEPI] else []) in
  ([Log (u "Fetching sources...")], Ok sources).

(** [getCronSources()]: the console lines, and what the promise resolves
    to. *)
Definition getCronSources (env : Env) : list line * result (list Source) :=
  match try_block env with
  | (t, Ok sources) => (t, Ok sources)
  | (t, Throw error) => (t ++ [ErrorLine error], Ok [])
  end.

End Sources.

(** More hosts and texts for the examples. *)
Module Cases.

Definition no_choices : Request -> result Response.ChatCompletion :=
  fun _ => Ok (Response.mkCompletion []).

Definition null_second : jsstring :=
  q "{'stories':[{'headline':'A','link':'http://x'},null]}".
Definition stories_text : jsstring := q "{'stories':'soon'}".
Definition stories_number : jsstring := q "{'stories':5}".
Definition marker_after_backticks : jsstring := q "`x` ```json{}".
Definition closing_fence_only : jsstring := q "{}" ++ [LF] ++ q "```".
Definition bare_array : jsstring :=
  q "[{'description':'B','story_or_tweet_link':'http://y'}]".
Definition null_first_key : jsstring :=
  q "{'interestingTweetsOrStories':null,'stories':[{'headline':'A','link':'http://x'}]}".
Definition both_keys : jsstring :=
  q "{'interestingTweetsOrStories':[{'description':'B','story_or_tweet_link':'http://y'}],'stories':[{'headline':'A','link':'http://x'}]}".
Definition cut_after_comma : jsstring := q "{'stories':[{'headline':'A'},".

Definition firecrawl_only : Sources.Env := Sources.mkEnv None (Some (u "fc-key")).
Definition empty_keys : Sources.Env := Sources.mkEnv (Some []) (Some []).

End Cases.

(** ** Hosts for the examples *)

Module Example.

Definition key : jsstring := u "sk-test".
Definition env_openai : Env := mkEnv (Some key) None.
Definition env_deepseek : Env := mkEnv None (Some key).
Definition env_both : Env := mkEnv (Some key) (Some key).
Definition env_none : Env := mkEnv None None.

Definition date : jsstring := u "11/3/2026".

(** An endpoint that answers every request with one choice. *)
Definition reply (text : option jsstring)
  : Request -> result Response.ChatCompletion :=
  fun _ => Ok (Response.mkCompletion
                 [Response.mkChoice (Response.mkMessage text)]).

(** An endpoint that is down. *)
Definition down : Request -> result Response.ChatCompletion :=
  fun _ => Throw (APIError (u "Connection error.")).

(** [Number.prototype.toString] on the whole numbers below 2^53 written
    without fraction or exponent, which is all the examples convert. *)
Definition Number_toString (n : JNumber) : jsstring :=
  if mantissa n =? 0 then u "0"
  else (if neg n then u "-" else [])
       ++ u (NilEmpty.string_of_uint (N.to_uint (mantissa n))).

Definition Function_toString (f : builtin) : jsstring :=
  match f with
  | Array_prototype_map => u "function map() { [native code] }"
  | String_prototype_link => u "function link() { [native code] }"
  end.

Definition rawStories : jsstring := u "scraped stories".

Definition fenced : jsstring :=
  q "```json" ++ [LF] ++ q "{'interestingTweetsOrStories':[]}" ++ [LF]
  ++ q "```".
Definition bare : jsstring := q "{'interestingTweetsOrStories':[]}".

Definition two_items : jsstring :=
  q "{'interestingTweetsOrStories':[{'description':'B','story_or_tweet_link':'http://y'},{'description':'C','story_or_tweet_link':'http://z'}]}".
Definition one_story : jsstring :=
  q "{'stories':[{'headline':'A','link':'http://x'}]}".
Definition null_item : jsstring := q "{'stories':[null]}".
Definition truncated : jsstring := q "{'interestingTweetsOrStories':[".
Definition empty_and_stories : jsstring :=
  q "{'interestingTweetsOrStories':[],'stories':[{'headline':'A','link':'http://x'}]}".
Definition plain_fence : jsstring :=
  q "```" ++ [LF] ++ q "{}" ++ [LF] ++ q "```".

End Example.

Section GenerateDraft.

(** [process.env], as [dotenv.config()] left it. *)
Variable env : Env.
(** [new Date().toLocaleDateString()]. *)
Variable currentDate : jsstring.
(** The completion endpoint behind the client: what [create] resolves to, or
    the error it rejects with. *)
Variable create : Request -> result Response.ChatCompletion.
(** [Number.prototype.toString], and the text the engine gives for a
    function of the standard library. *)
Variable Number_toString : JNumber -> jsstring.
Variable Function_toString : builtin -> jsstring.

(** [ToString], as a template literal applies it. An object conversion calls
    [toString]; a parsed object never holds a function, so one with a key
    [toString] of its own has nothing to call and the conversion throws. An
    array joins the conversions of its elements with commas. *)
Fixpoint ToString (v : value) : result jsstring :=
  match v with
  | VUndefined => Ok (u "undefined")
  | VNull => Ok (u "null")
  | VBool true => Ok (u "true")
  | VBool false => Ok (u "false")
  | VNumber n => Ok (Number_toString n)
  | VString s => Ok s
  | VArray elems =>
      parts <-
        (fix each (l : list value) : result (list jsstring) :=
           match l with
           | [] => Ok []
           | e :: l' =>
               p <- match e with
                    | VUndefined | VNull => Ok []
                    | _ => ToString e
                    end ;;
               ps <- each l' ;;
               Ok (p :: ps)
           end) elems ;;
      Ok (join (u ",") parts)
  | VObject props =>
      match own_property props (u "toString") with
      | Some _ => Throw TypeError
      | None => Ok (u "[object Object]")
      end
  | VFunction f => Ok (Function_toString f)
  end.

Definition header : jsstring :=
  ROCKET ++ u " AI and LLM Trends on X for " ++ currentDate ++ [LF; LF].

Definition useOpenAI : bool := is_set (OPENAI_API_KEY env).
Definition useDeepseek : bool := is_set (DEEPSEEK_API_KEY env) && negb useOpenAI.

Definition messages_for (rawStories : jsstring) : list ChatMessage :=
  [mkMessage system SYSTEM_PROMPT; mkMessage user rawStories].

(** Lines 44-74: the request of the selected client, and the content of the
    first choice of its answer. *)
Definition request_for (rawStories : jsstring) : Request :=
  if useOpenAI
  then mkRequest OPENAI_URL (OPENAI_API_KEY env) (u "gpt-3.5-turbo")
         (messages_for rawStories)
  else mkRequest DEEPSEEK_URL (DEEPSEEK_API_KEY env) (u "deepseek-chat")
         (messages_for rawStories).

Definition complete (rawStories : jsstring) : M (option jsstring) :=
  emit (ConsoleLog (if useOpenAI then u "Using OpenAI API..."
                    else u "Using Deepseek API...")) ;;;
  emit (ChatCompletionsCreate (request_for rawStories)) ;;;
  completion <~ lift (create (request_for rawStories)) ;;
  lift (first_content completion).

(** Lines 91-92. *)
Definition contentArray (parsedResponse : value) : result value :=
  a <- Get parsedResponse (u "interestingTweetsOrStories") ;;
  if ToBoolean a then Ok a
  else
    b <- Get parsedResponse (u "stories") ;;
    if ToBoolean b then Ok b else Ok (VArray []).

(** [a.primary || a.fallback]. *)
Definition either_property (item : value) (primary fallback : jsstring)
  : result value :=
  a <- Get item primary ;;
  if ToBoolean a then Ok a else Get item fallback.

(** The two interpolations of the template literal of lines 103-105. *)
Definition description_of (item : value) : result jsstring :=
  d <- either_property item (u "description") (u "headline") ;;
  ToString d.

Definition link_of (item : value) : result jsstring :=
  l <- either_property item (u "story_or_tweet_link") (u "link") ;;
  ToString l.

Definition block (description link : jsstring) : jsstring :=
  BULLET :: u " " ++ description ++ LF :: u "  " ++ link.

(** Lines 102-105, the function given to [map]. *)
Definition renderItem (item : value) : result jsstring :=
  description <- description_of item ;;
  link <- link_of item ;;
  Ok (block description link).

(** Lines 83-109: from the completion text to the draft. *)
Definition draft_post (rawJSON : jsstring) : result jsstring :=
  parsedResponse <- JSON.parse (cleanJSON rawJSON) ;;
  items <- contentArray parsedResponse ;;
  len <- Get items (u "length") ;;
  if strict_equals_zero len then Ok (header ++ NO_STORIES)
  else
    blocks <- call_map items renderItem ;;
    Ok (header ++ join [LF; LF] blocks).

(** Lines 16-109, the body of [try]. *)
Definition try_block (rawStories : jsstring) : M jsstring :=
  if negb useOpenAI && negb useDeepseek then raise (Error NO_KEYS)
  else
    rawJSON <~ complete rawStories ;;
    match rawJSON with
    | None | Some [] =>
        emit (ConsoleLog (u "No JSON output returned from API.")) ;;;
        ret (header ++ NO_OUTPUT)
    | Some rawJSON =>
        emit (ConsoleLog rawJSON) ;;;
        lift (draft_post rawJSON)
    end.

(** [generateDraft(rawStories)]: the events of the call, and the value its
    promise resolves to ([Ok]) or rejects with ([Throw]). *)
Definition generateDraft (rawStories : jsstring) : M jsstring :=
  emit (ConsoleLog
          (u "Generating a post draft with raw stories ("
           ++ Number_toString (number_of_nat (length rawStories))
           ++ u " characters)...")) ;;;
  try_catch (try_block rawStories)
    (fun error =>
       emit (ConsoleError (u "Error generating draft post" ) error) ;;;
       ret ERROR_DRAFT).


(** ** Notions used by the statements *)

(** The requests that reached a completion endpoint during a call. *)
Fixpoint requests (t : list event) : list Request :=
  match t with
  | [] => []
  | ChatCompletionsCreate r :: t' => r :: requests t'
  | _ :: t' => requests t'
  end.

(** The selected client resolved, and the content of its first choice was
    [rawJSON] ([None] for [null]). *)
Definition provider_returns (rawStories : jsstring) (rawJSON : option jsstring)
  : Prop :=
  (useOpenAI || useDeepseek) = true
  /\ exists completion,
       create (request_for rawStories) = Ok completion
       /\ first_content completion = Ok rawJSON.

(** The three kinds of error of a call. *)
Inductive fails (rawStories : jsstring) : Prop :=
| ConfigurationError :
    is_set (OPENAI_API_KEY env) = false ->
    is_set (DEEPSEEK_API_KEY env) = false ->
    fails rawStories
| TransportError (e : exn) :
    (useOpenAI || useDeepseek) = true ->
    create (request_for rawStories) = Throw e ->
    fails rawStories
| ParseError (c : code_unit) (rawJSON : jsstring) (e : exn) :
    provider_returns rawStories (Some (c :: rawJSON)) ->
    JSON.parse (cleanJSON (c :: rawJSON)) = Throw e ->
    fails rawStories.

(** A property that is absent or holds a falsy value. *)
Definition absent_or_falsy (p : option value) : bool :=
  match p with
  | None => true
  | Some a => negb (ToBoolean a)
  end.

(** The two outcomes without items that are not errors: no content; an
    empty selected array, or an object in which neither key holds a truthy
    value. *)
Inductive falls_back (rawStories : jsstring) : jsstring -> Prop :=
| NoOutput :
    provider_returns rawStories None ->
    falls_back rawStories NO_OUTPUT
| EmptyResult (c : code_unit) (rawJSON : jsstring) (v : value) :
    provider_returns rawStories (Some (c :: rawJSON)) ->
    JSON.parse (cleanJSON (c :: rawJSON)) = Ok v ->
    contentArray v = Ok (VArray []) ->
    falls_back rawStories NO_STORIES
| NeitherKey (c : code_unit) (rawJSON : jsstring)
    (props : list (jsstring * value)) :
    provider_returns rawStories (Some (c :: rawJSON)) ->
    JSON.parse (cleanJSON (c :: rawJSON)) = Ok (VObject props) ->
    absent_or_falsy (own_property props (u "interestingTweetsOrStories"))
    = true ->
    absent_or_falsy (own_property props (u "stories")) = true ->
    falls_back rawStories NO_STORIES.

(** [r] occurs in [s] as a run of consecutive code units. *)
Definition infix (r s : jsstring) : Prop :=
  exists before after, s = before ++ r ++ after.

Definition all_space (w : jsstring) : Prop := forallb is_space w = true.

(** The code units a JSON value can end with: a closing brace, bracket or
    quote, a digit, and the last letter of [true], [false] and [null]. *)
Definition closes (c : code_unit) : bool :=
  (c =? 125) || (c =? 93) || (c =? 34) || JSON.is_digit c || (c =? 101)
  || (c =? 108).

(** Reading [s] stopped at [r], and the last code unit read satisfies
    [P]. *)
Definition reads_up_to (P : code_unit -> bool) (s r : jsstring) : Prop :=
  exists x c, s = x ++ c :: r /\ P c = true.

(** [r] is [s] with some code units deleted. *)
Inductive deletes_to : jsstring -> jsstring -> Prop :=
| deletes_nil : deletes_to [] []
| deletes_keep (c : code_unit) (s r : jsstring) :
    deletes_to s r -> deletes_to (c :: s) (c :: r)
| deletes_drop (c : code_unit) (s r : jsstring) :
    deletes_to s r -> deletes_to (c :: s) r.

(** What a call wrote with [console.error]. *)
Fixpoint error_lines (t : list event) : list (jsstring * exn) :=
  match t with
  | [] => []
  | ConsoleError text e :: t' => (text, e) :: error_lines t'
  | _ :: t' => error_lines t'
  end.

(** A parsed value other than an object and [null]. *)
Definition primitive_or_array (v : value) : bool :=
  match v with
  | VBool _ | VNumber _ | VString _ | VArray _ => true
  | _ => false
  end.

(** The selection of the item's fields, in the words of the amended claim:
    a field is what the object holds under the key, [undefined] when it
    holds nothing; the first field is taken if it is present and truthy
    (not [undefined], [null], [false], zero or the empty string), else the
    second. *)
Definition field (props : list (jsstring * value)) (key : jsstring) : value :=
  match own_property props key with
  | Some x => x
  | None => VUndefined
  end.

Definition first_truthy (first second : value) : value :=
  match first with
  | VUndefined | VNull | VBool false | VString [] => second
  | VNumber n => if is_zero n then second else first
  | VBool true | VString (_ :: _) | VArray _ | VObject _ | VFunction _ => first
  end.

(** The block of a description and a link, each converted to a string. *)
Definition rendered (description link : value) : result jsstring :=
  d <- ToString description ;;
  l <- ToString link ;;
  Ok ([BULLET; 32] ++ d ++ [LF; 32; 32] ++ l).

(** The items that are no objects and no strings: none of the four names
    is a property of theirs. *)
Definition has_no_fields (item : value) : bool :=
  match item with
  | VBool _ | VNumber _ | VArray _ => true
  | _ => false
  end.

(** * Facts *)

Import JSON.

(** ** Strings *)

Lemma dropWhile_length f s : (length (dropWhile f s) <= length s)%nat.
Proof.
  induction s as [|c s IH]; simpl; [lia|].
  destruct (f c); simpl; lia.
Qed.

Lemma skip_ws_length s : (length (skip_ws s) <= length s)%nat.
Proof. apply dropWhile_length. Qed.

Lemma strip_prefix_app p s r : strip_prefix p s = Some r -> s = p ++ r.
Proof.
  revert s; induction p as [|x p IH]; intros s H; simpl in H.
  - now inversion H.
  - destruct s as [|y s]; [discriminate|].
    destruct (x =? y) eqn:E; [|discriminate].
    apply N.eqb_eq in E; subst y. simpl. f_equal. now apply IH.
Qed.

Lemma strip_prefix_length p s r :
  strip_prefix p s = Some r -> length s = (length p + length r)%nat.
Proof. intros H. apply strip_prefix_app in H. subst. now rewrite length_app. Qed.

Lemma strip_prefix_refl p r : strip_prefix p (p ++ r) = Some r.
Proof.
  induction p as [|x p IH]; simpl; [reflexivity|].
  now rewrite N.eqb_refl.
Qed.

(** *** White space *)

Lemma dropWhile_all_space w s :
  all_space w -> dropWhile is_space (w ++ s) = dropWhile is_space s.
Proof.
  unfold all_space. induction w as [|c w IH]; simpl; [reflexivity|].
  intros H. apply andb_prop in H as [Hc Hw]. rewrite Hc. auto.
Qed.

Lemma dropWhile_space_nil w : all_space w -> dropWhile is_space w = [].
Proof.
  intros H. rewrite <- (app_nil_r w). now rewrite dropWhile_all_space.
Qed.

Lemma all_space_rev w : all_space w -> all_space (rev w).
Proof.
  unfold all_space. rewrite !forallb_forall. intros H x Hx.
  apply H. now apply in_rev.
Qed.

(** Dropping leading white space leaves a text that is empty or starts
    with something else, and cuts an all-space prefix. *)
Lemma dropWhile_split s :
  exists w, all_space w /\ s = w ++ dropWhile is_space s
            /\ dropWhile is_space (dropWhile is_space s) = dropWhile is_space s.
Proof.
  induction s as [|c s (w & Hw & Hs & Hd)].
  - exists []. repeat split.
  - simpl. destruct (is_space c) eqn:E.
    + exists (c :: w). repeat split.
      * unfold all_space in *. simpl. now rewrite E.
      * simpl. now f_equal.
      * exact Hd.
    + exists []. repeat split. simpl. now rewrite E.
Qed.

Lemma trim_space_l w s : all_space w -> trim (w ++ s) = trim s.
Proof. intros H. unfold trim. now rewrite dropWhile_all_space. Qed.

Lemma trim_dropWhile s : trim (dropWhile is_space s) = trim s.
Proof.
  destruct (dropWhile_split s) as (w & Hw & Hs & Hd).
  unfold trim. now rewrite Hd.
Qed.

Lemma dropWhile_space_r s w :
  all_space w ->
  dropWhile is_space (s ++ w)
  = match dropWhile is_space s with
    | [] => []
    | d => d ++ w
    end.
Proof.
  intros Hw. induction s as [|c s IH]; simpl.
  - now apply dropWhile_space_nil.
  - destruct (is_space c); [exact IH|reflexivity].
Qed.

Lemma trim_space_r s w : all_space w -> trim (s ++ w) = trim s.
Proof.
  intros Hw. unfold trim. rewrite dropWhile_space_r by assumption.
  destruct (dropWhile is_space s) as [|c t]; [reflexivity|].
  rewrite rev_app_distr, dropWhile_all_space by now apply all_space_rev.
  reflexivity.
Qed.

Lemma all_space_In w c : all_space w -> In c w -> is_space c = true.
Proof. unfold all_space. rewrite forallb_forall. auto. Qed.

Lemma dropWhile_In f s c : In c (dropWhile f s) -> In c s.
Proof.
  induction s as [|x s IH]; simpl; [auto|].
  destruct (f x); simpl; auto.
Qed.

Lemma dropWhile_stop f x c y :
  f c = false -> dropWhile f (x ++ c :: y) = dropWhile f x ++ c :: y.
Proof.
  intros Hc. induction x as [|d x IH]; simpl.
  - now rewrite Hc.
  - destruct (f d); [exact IH|reflexivity].
Qed.

(** *** The first replacement *)

Lemma match_fence_json_length s r :
  match_fence_json s = Some r -> (length r < length s)%nat.
Proof.
  unfold match_fence_json. intros H.
  destruct (strip_prefix FENCE_JSON s) as [r0|] eqn:E; [|discriminate].
  apply strip_prefix_length in E. inversion H; subst.
  pose proof (dropWhile_length is_space r0). simpl in E. lia.
Qed.

Lemma replace_fence_json_from_enough n :
  forall m s, (length s <= n)%nat -> (length s <= m)%nat ->
    replace_fence_json_from n s = replace_fence_json_from m s.
Proof.
  induction n as [|n IH]; intros m s Hn Hm.
  - destruct s; [|simpl in Hn; lia]. destruct m; reflexivity.
  - destruct m as [|m].
    { destruct s; [reflexivity|simpl in Hm; lia]. }
    cbn [replace_fence_json_from].
    destruct (match_fence_json s) as [r|] eqn:E.
    + apply match_fence_json_length in E. apply IH; lia.
    + destruct s as [|c s]; [reflexivity|]. simpl in Hn, Hm.
      f_equal. apply IH; lia.
Qed.

(** The replacement, as the scan it is. *)
Lemma replace_fence_json_eq s :
  replace_fence_json s
  = match match_fence_json s with
    | Some r => replace_fence_json r
    | None =>
        match s with
        | [] => []
        | c :: s' => c :: replace_fence_json s'
        end
    end.
Proof.
  unfold replace_fence_json at 1.
  destruct s as [|c s]; [reflexivity|].
  cbn [length replace_fence_json_from].
  destruct (match_fence_json (c :: s)) as [r|] eqn:E.
  - apply match_fence_json_length in E. simpl in E.
    apply replace_fence_json_from_enough; lia.
  - reflexivity.
Qed.

Lemma strip_prefix_other x p c s :
  c <> x -> strip_prefix (x :: p) (c :: s) = None.
Proof.
  intros Hc. cbn [strip_prefix]. destruct (N.eqb_spec x c); congruence.
Qed.

Lemma match_fence_json_other c s : c <> 96 -> match_fence_json (c :: s) = None.
Proof.
  intros Hc. unfold match_fence_json.
  change FENCE_JSON with (96 :: u "``json").
  now rewrite strip_prefix_other.
Qed.

Lemma replace_fence_json_skip a x :
  ~ In 96 a -> replace_fence_json (a ++ x) = a ++ replace_fence_json x.
Proof.
  induction a as [|c a IH]; intros Ha; [reflexivity|].
  simpl in Ha. rewrite <- app_comm_cons, replace_fence_json_eq.
  rewrite match_fence_json_other by intuition congruence.
  rewrite IH by tauto. reflexivity.
Qed.

Lemma replace_fence_json_at b :
  replace_fence_json (FENCE_JSON ++ b) = replace_fence_json (dropWhile is_space b).
Proof.
  rewrite replace_fence_json_eq. unfold match_fence_json.
  now rewrite strip_prefix_refl.
Qed.

Lemma infix_cons r c s : infix r s -> infix r (c :: s).
Proof. intros (a & b & ->). now exists (c :: a), b. Qed.

Lemma replace_fence_json_id s :
  ~ infix FENCE_JSON s -> replace_fence_json s = s.
Proof.
  induction s as [|c s IH]; intros Hs; [reflexivity|].
  rewrite replace_fence_json_eq.
  destruct (match_fence_json (c :: s)) as [r|] eqn:E.
  - exfalso. apply Hs. unfold match_fence_json in E.
    destruct (strip_prefix FENCE_JSON (c :: s)) as [r0|] eqn:E0; [|discriminate].
    apply strip_prefix_app in E0. now exists [], r0.
  - rewrite IH; [reflexivity|]. intros Hi. apply Hs. now apply infix_cons.
Qed.

(** *** The second replacement *)

Lemma match_fence_end_other c s : c <> 96 -> match_fence_end (c :: s) = false.
Proof.
  intros Hc. unfold match_fence_end.
  change FENCE with (96 :: u "``").
  now rewrite strip_prefix_other.
Qed.

Lemma replace_fence_end_skip a x :
  ~ In 96 a -> replace_fence_end (a ++ x) = a ++ replace_fence_end x.
Proof.
  induction a as [|c a IH]; intros Ha; [reflexivity|].
  simpl in Ha. rewrite <- app_comm_cons.
  cbn [replace_fence_end].
  rewrite match_fence_end_other by intuition congruence.
  rewrite IH by tauto. reflexivity.
Qed.

Lemma replace_fence_end_at w :
  all_space w -> replace_fence_end (FENCE ++ w) = [].
Proof.
  intros Hw. change (FENCE ++ w) with (96 :: 96 :: 96 :: w).
  cbn [replace_fence_end].
  unfold match_fence_end.
  change (96 :: 96 :: 96 :: w) with (FENCE ++ w) at 1.
  rewrite strip_prefix_refl. unfold all_space in Hw. now rewrite Hw.
Qed.

Lemma replace_fence_end_id s :
  (forall a w, all_space w -> s <> a ++ FENCE ++ w) -> replace_fence_end s = s.
Proof.
  induction s as [|c s IH]; intros Hs; [reflexivity|].
  cbn [replace_fence_end].
  destruct (match_fence_end (c :: s)) eqn:E.
  - exfalso. unfold match_fence_end in E.
    destruct (strip_prefix FENCE (c :: s)) as [r|] eqn:E0; [|discriminate].
    apply strip_prefix_app in E0. now apply (Hs [] r).
  - rewrite IH; [reflexivity|].
    intros a w Hw ->. now apply (Hs (c :: a) w).
Qed.

(** *** Their composition *)

Lemma space_no_backtick w : all_space w -> ~ In 96 w.
Proof. intros Hw Hi. now apply (all_space_In _ _ Hw) in Hi. Qed.

Lemma fence_then_space_no_json w :
  all_space w -> ~ infix FENCE_JSON (FENCE ++ w).
Proof.
  intros Hw (a & b & H).
  assert (In 106 (FENCE ++ w)) as Hi.
  { rewrite H. apply in_or_app. right. apply in_or_app. left.
    simpl. tauto. }
  apply in_app_or in Hi as [Hi|Hi].
  - simpl in Hi. repeat (destruct Hi as [Hi|Hi]; [discriminate|]). exact Hi.
  - now apply (all_space_In _ _ Hw) in Hi.
Qed.

Lemma cleanJSON_wrapped w0 w1 body w2 w3 :
  all_space w0 -> all_space w1 -> all_space w2 -> all_space w3 ->
  ~ In 96 body ->
  cleanJSON (w0 ++ FENCE_JSON ++ w1 ++ body ++ w2 ++ FENCE ++ w3) = trim body.
Proof.
  intros H0 H1 H2 H3 Hb. unfold cleanJSON.
  rewrite replace_fence_json_skip by now apply space_no_backtick.
  rewrite replace_fence_json_at, dropWhile_all_space by assumption.
  rewrite (app_assoc body w2).
  change (FENCE ++ w3) with (96 :: (96 :: 96 :: w3)).
  rewrite dropWhile_stop by reflexivity.
  change (96 :: (96 :: 96 :: w3)) with (FENCE ++ w3).
  assert (~ In 96 (dropWhile is_space (body ++ w2))) as Hd.
  { intros Hi. apply dropWhile_In, in_app_or in Hi as [Hi|Hi]; [tauto|].
    now apply (space_no_backtick w2). }
  rewrite replace_fence_json_skip by assumption.
  rewrite replace_fence_json_id by now apply fence_then_space_no_json.
  rewrite app_assoc, replace_fence_end_skip.
  - rewrite replace_fence_end_at, app_nil_r by assumption.
    rewrite trim_space_l, trim_dropWhile, trim_space_r by assumption.
    reflexivity.
  - intros Hi. apply in_app_or in Hi as [Hi|Hi]; [|tauto].
    now apply (space_no_backtick w0).
Qed.


Lemma cleanJSON_plain s :
  ~ infix FENCE_JSON s ->
  (forall a w, all_space w -> s <> a ++ FENCE ++ w) ->
  cleanJSON s = trim s.
Proof.
  intros H1 H2. unfold cleanJSON.
  now rewrite replace_fence_json_id, replace_fence_end_id.
Qed.

(** *** The marker and the fence, anywhere *)







(** ** The parser *)

Lemma span_digits_length s ds r :
  span_digits s = (ds, r) -> length s = (length ds + length r)%nat.
Proof.
  revert ds r; induction s as [|c s IH]; intros ds r H; simpl in H.
  - inversion H; reflexivity.
  - destruct (is_digit c).
    + destruct (span_digits s) as [ds' r'] eqn:E. inversion H; subst.
      simpl. rewrite (IH ds' r eq_refl). reflexivity.
    + inversion H; subst. reflexivity.
Qed.

Lemma parse_frac_length s ds r :
  parse_frac s = Some (ds, r) -> (length r <= length s)%nat.
Proof.
  unfold parse_frac. intros H.
  destruct (strip_prefix (u ".") s) as [r0|] eqn:E.
  - apply strip_prefix_length in E.
    destruct (span_digits r0) as [ds' r'] eqn:E'.
    apply span_digits_length in E'.
    destruct ds'; [discriminate|]. inversion H; subst. simpl in *. lia.
  - inversion H; subst. lia.
Qed.

Lemma parse_exp_digits_length sign s e r :
  parse_exp_digits sign s = Some (e, r) -> (length r <= length s)%nat.
Proof.
  unfold parse_exp_digits. intros H.
  destruct (span_digits s) as [ds' r'] eqn:E'.
  apply span_digits_length in E'.
  destruct ds'; [discriminate|]. inversion H; subst. lia.
Qed.

Lemma parse_exp_length s e r :
  parse_exp s = Some (e, r) -> (length r <= length s)%nat.
Proof.
  unfold parse_exp. intros H.
  destruct s as [|c s]; [inversion H; subst; simpl; lia|].
  destruct ((c =? 101) || (c =? 69)); [|inversion H; subst; lia].
  destruct (strip_prefix (u "+") s) as [r1|] eqn:E1.
  { apply strip_prefix_length in E1. apply parse_exp_digits_length in H.
    simpl in *. lia. }
  destruct (strip_prefix (u "-") s) as [r2|] eqn:E2.
  { apply strip_prefix_length in E2. apply parse_exp_digits_length in H.
    simpl in *. lia. }
  apply parse_exp_digits_length in H. simpl. lia.
Qed.

Lemma parse_int_length s ds r :
  parse_int s = Some (ds, r) -> (length r < length s)%nat.
Proof.
  unfold parse_int. intros H.
  destruct s as [|c s]; [discriminate|].
  destruct (c =? 48); [inversion H; subst; simpl; lia|].
  destruct (is_digit c); [|discriminate].
  destruct (span_digits s) as [ds' r'] eqn:E.
  apply span_digits_length in E. inversion H; subst. simpl. lia.
Qed.

Lemma parse_number_length s n r :
  parse_number s = Some (n, r) -> (length r < length s)%nat.
Proof.
  unfold parse_number. intros H.
  assert (exists sign s1, (length s1 <= length s)%nat /\
            match parse_int s1 with
            | Some (int, s2) =>
                match parse_frac s2 with
                | Some (frac, s3) =>
                    match parse_exp s3 with
                    | Some (e, s4) =>
                        Some (mkNumber sign (digits_value (int ++ frac))
                                (e - Z.of_nat (length frac))%Z, s4)
                    | None => None
                    end
                | None => None
                end
            | None => None
            end = Some (n, r)) as (sign & s1 & Hs1 & H').
  { destruct (strip_prefix (u "-") s) as [r0|] eqn:E.
    - apply strip_prefix_length in E. exists true, r0. split; [simpl in E; lia|exact H].
    - exists false, s. split; [lia|exact H]. }
  clear H.
  destruct (parse_int s1) as [[int s2]|] eqn:E1; [|discriminate].
  destruct (parse_frac s2) as [[frac s3]|] eqn:E2; [|discriminate].
  destruct (parse_exp s3) as [[e s4]|] eqn:E3; [|discriminate].
  inversion H'; subst.
  apply parse_int_length in E1. apply parse_frac_length in E2.
  apply parse_exp_length in E3. lia.
Qed.

Lemma parse_chars_length s acc str r :
  parse_chars s acc = Some (str, r) -> (length r < length s)%nat.
Proof.
  remember (length s) as n eqn:Hn.
  assert (length s <= n)%nat as Hle by lia. clear Hn.
  revert s acc Hle.
  induction n as [|n IH]; intros s acc Hle H.
  - destruct s; [discriminate|simpl in Hle; lia].
  - destruct s as [|c s]; [discriminate|]. simpl in Hle. simpl in H.
    destruct (c =? 34); [inversion H; subst; simpl; lia|].
    destruct (c =? 92).
    + destruct s as [|e s]; [discriminate|]. simpl in Hle.
      repeat match type of H with
             | (if ?b then parse_chars _ _ else _) = _ =>
                 destruct b; [apply IH in H; [simpl; lia|lia]|]
             end.
      destruct (e =? 117); [|discriminate].
      destruct s as [|h1 [|h2 [|h3 [|h4 s]]]]; try discriminate.
      destruct (hex4 h1 h2 h3 h4); [|discriminate].
      simpl in Hle. apply IH in H; simpl; lia.
    + destruct (c <? 32); [discriminate|].
      apply IH in H; simpl; lia.
Qed.

Lemma parse_literal_length lit v s v' r :
  lit <> [] -> parse_literal lit v s = Parsed v' r -> (length r < length s)%nat.
Proof.
  unfold parse_literal. intros Hl H.
  destruct (strip_prefix lit s) eqn:E; [|discriminate].
  apply strip_prefix_length in E. inversion H; subst.
  destruct lit; [congruence|]. simpl in E. lia.
Qed.

Ltac prefix_lengths :=
  repeat match goal with
         | H : strip_prefix _ _ = Some _ |- _ =>
             apply strip_prefix_length in H; simpl in H
         | H : parse_chars _ _ = Some _ |- _ => apply parse_chars_length in H
         | H : parse_number _ = Some _ |- _ => apply parse_number_length in H
         | H : parse_literal _ _ _ = Parsed _ _ |- _ =>
             apply parse_literal_length in H; [|simpl; discriminate]
         end.

Ltac ws_lengths :=
  unfold skip_ws in *;
  repeat match goal with
         | |- context [dropWhile ?f ?s] =>
             lazymatch goal with
             | _ : (length (dropWhile f s) <= length s)%nat |- _ => fail
             | _ => pose proof (dropWhile_length f s)
             end
         | _ : context [dropWhile ?f ?s] |- _ =>
             lazymatch goal with
             | _ : (length (dropWhile f s) <= length s)%nat |- _ => fail
             | _ => pose proof (dropWhile_length f s)
             end
         end.

(** What is read is not empty. *)
Lemma parse_shorter fuel :
  (forall s v r, parse_value fuel s = Parsed v r -> (length r < length s)%nat)
  /\ (forall s acc v r,
        parse_elements fuel s acc = Parsed v r -> (length r < length s)%nat)
  /\ (forall s acc v r,
        parse_members fuel s acc = Parsed v r -> (length r < length s)%nat).
Proof.
  induction fuel as [|fuel (IHv & IHe & IHm)].
  { repeat split; intros; discriminate. }
  repeat split.
  - intros s v r H. cbn [parse_value parse_elements parse_members] in H.
    destruct s as [|c s]; [discriminate|].
    destruct (c =? 123).
    { destruct (strip_prefix (u "}") (skip_ws s)) eqn:E.
      - inversion H; subst. prefix_lengths. ws_lengths. simpl. lia.
      - apply IHm in H. ws_lengths. simpl. lia. }
    destruct (c =? 91).
    { destruct (strip_prefix (u "]") (skip_ws s)) eqn:E.
      - inversion H; subst. prefix_lengths. ws_lengths. simpl. lia.
      - apply IHe in H. ws_lengths. simpl. lia. }
    destruct (c =? 34).
    { destruct (parse_chars s []) as [[str r']|] eqn:E; [|discriminate].
      inversion H; subst. prefix_lengths. simpl. lia. }
    destruct (c =? 116); [prefix_lengths; lia|].
    destruct (c =? 102); [prefix_lengths; lia|].
    destruct (c =? 110); [prefix_lengths; lia|].
    destruct (parse_number (c :: s)) as [[n r']|] eqn:E; [|discriminate].
    inversion H; subst. prefix_lengths. lia.
  - intros s acc v r H. cbn [parse_value parse_elements parse_members] in H.
    destruct (parse_value fuel s) as [v0 r0| |] eqn:E; try discriminate.
    apply IHv in E.
    destruct (strip_prefix (u ",") (skip_ws r0)) eqn:E1.
    { apply IHe in H. prefix_lengths. ws_lengths. lia. }
    destruct (strip_prefix (u "]") (skip_ws r0)) eqn:E2; [|discriminate].
    inversion H; subst. prefix_lengths. ws_lengths. lia.
  - intros s acc v r H. cbn [parse_value parse_elements parse_members] in H.
    destruct (strip_prefix [34] s) as [r0|] eqn:E0; [|discriminate].
    destruct (parse_chars r0 []) as [[key r1]|] eqn:E1; [|discriminate].
    destruct (strip_prefix (u ":") (skip_ws r1)) as [r2|] eqn:E2; [|discriminate].
    destruct (parse_value fuel (skip_ws r2)) as [v0 r3| |] eqn:E3; try discriminate.
    apply IHv in E3.
    destruct (strip_prefix (u ",") (skip_ws r3)) eqn:E4.
    { apply IHm in H. prefix_lengths. ws_lengths. lia. }
    destruct (strip_prefix (u "}") (skip_ws r3)) eqn:E5; [|discriminate].
    inversion H; subst. prefix_lengths. ws_lengths. lia.
Qed.

(** Twice the length of the text and one more is fuel enough. *)
Lemma parse_enough_fuel fuel :
  (forall s, (2 * length s + 1 <= fuel)%nat -> parse_value fuel s <> OutOfFuel)
  /\ (forall s acc, (2 * length s + 2 <= fuel)%nat ->
        parse_elements fuel s acc <> OutOfFuel)
  /\ (forall s acc, (2 * length s + 2 <= fuel)%nat ->
        parse_members fuel s acc <> OutOfFuel).
Proof.
  induction fuel as [|fuel (IHv & IHe & IHm)].
  { repeat split; intros; lia. }
  repeat split.
  - intros s Hf. cbn [parse_value parse_elements parse_members].
    destruct s as [|c s]; [discriminate|]. simpl in Hf.
    destruct (c =? 123).
    { destruct (strip_prefix (u "}") (skip_ws s)); [discriminate|].
      apply IHm. ws_lengths. lia. }
    destruct (c =? 91).
    { destruct (strip_prefix (u "]") (skip_ws s)); [discriminate|].
      apply IHe. ws_lengths. lia. }
    destruct (c =? 34).
    { destruct (parse_chars s []) as [[? ?]|]; discriminate. }
    unfold parse_literal.
    repeat match goal with
           | |- (if ?b then _ else _) <> _ => destruct b
           | |- match ?x with _ => _ end <> _ => destruct x as [[? ?]|]
           | |- match ?x with _ => _ end <> _ => destruct x
           end; discriminate.
  - intros s acc Hf. cbn [parse_value parse_elements parse_members].
    destruct (parse_value fuel s) as [v0 r0| |] eqn:E; try discriminate.
    + apply (proj1 (parse_shorter fuel)) in E.
      destruct (strip_prefix (u ",") (skip_ws r0)) eqn:E1.
      { apply IHe. prefix_lengths. ws_lengths. lia. }
      destruct (strip_prefix (u "]") (skip_ws r0)); discriminate.
    + exfalso. revert E. apply IHv. lia.
  - intros s acc Hf. cbn [parse_value parse_elements parse_members].
    destruct (strip_prefix [34] s) as [r0|] eqn:E0; [|discriminate].
    destruct (parse_chars r0 []) as [[key r1]|] eqn:E1; [|discriminate].
    destruct (strip_prefix (u ":") (skip_ws r1)) as [r2|] eqn:E2; [|discriminate].
    prefix_lengths.
    destruct (parse_value fuel (skip_ws r2)) as [v0 r3| |] eqn:E3; try discriminate.
    + apply (proj1 (parse_shorter fuel)) in E3.
      destruct (strip_prefix (u ",") (skip_ws r3)) eqn:E4.
      { apply IHm. prefix_lengths. ws_lengths. lia. }
      destruct (strip_prefix (u "}") (skip_ws r3)); discriminate.
    + exfalso. revert E3. apply IHv. ws_lengths. lia.
Qed.

(** More fuel does not change a result. *)
Lemma parse_more_fuel fuel :
  (forall s m, (fuel <= m)%nat -> parse_value fuel s <> OutOfFuel ->
     parse_value m s = parse_value fuel s)
  /\ (forall s acc m, (fuel <= m)%nat -> parse_elements fuel s acc <> OutOfFuel ->
        parse_elements m s acc = parse_elements fuel s acc)
  /\ (forall s acc m, (fuel <= m)%nat -> parse_members fuel s acc <> OutOfFuel ->
        parse_members m s acc = parse_members fuel s acc).
Proof.
  induction fuel as [|fuel (IHv & IHe & IHm)].
  { repeat split; intros; cbn in *; congruence. }
  repeat split.
  - intros s [|m] Hm; [lia|].
    cbn [parse_value parse_elements parse_members].
    destruct s as [|c s]; [reflexivity|].
    destruct (c =? 123).
    { destruct (strip_prefix (u "}") (skip_ws s)); [reflexivity|].
      apply IHm. lia. }
    destruct (c =? 91).
    { destruct (strip_prefix (u "]") (skip_ws s)); [reflexivity|].
      apply IHe. lia. }
    reflexivity.
  - intros s acc [|m] Hm; [lia|].
    cbn [parse_value parse_elements parse_members].
    destruct (parse_value fuel s) as [v0 r0| |] eqn:E; try congruence.
    + rewrite (IHv s m), E by (lia || congruence).
      destruct (strip_prefix (u ",") (skip_ws r0)); [|reflexivity].
      apply IHe. lia.
    + rewrite (IHv s m), E by (lia || congruence). reflexivity.
  - intros s acc [|m] Hm; [lia|].
    cbn [parse_value parse_elements parse_members].
    destruct (strip_prefix [34] s) as [r0|]; [|reflexivity].
    destruct (parse_chars r0 []) as [[key r1]|]; [|reflexivity].
    destruct (strip_prefix (u ":") (skip_ws r1)) as [r2|]; [|reflexivity].
    destruct (parse_value fuel (skip_ws r2)) as [v0 r3| |] eqn:E3; try congruence.
    + rewrite (IHv _ m), E3 by (lia || congruence).
      destruct (strip_prefix (u ",") (skip_ws r3)); [|reflexivity].
      apply IHm. lia.
    + rewrite (IHv _ m), E3 by (lia || congruence). reflexivity.
Qed.

(** [JSON.parse] is the parser with any fuel from [fuel_for] on: it never
    stops for lack of fuel, and more fuel gives the same result. *)
Lemma parse_text_fuel text m :
  (fuel_for text <= m)%nat ->
  parse_text m text <> OutOfFuel
  /\ parse_text m text = parse_text (fuel_for text) text.
Proof.
  intros Hm. unfold parse_text.
  assert (parse_value (fuel_for text) (skip_ws text) <> OutOfFuel) as Hne.
  { apply (proj1 (parse_enough_fuel _)). unfold fuel_for.
    pose proof (skip_ws_length text). lia. }
  rewrite (proj1 (parse_more_fuel _) _ m Hm Hne).
  split; [|reflexivity].
  destruct (parse_value (fuel_for text) (skip_ws text)); try congruence.
  destruct (skip_ws rest); discriminate.
Qed.

Lemma parse_total text :
  parse text = Throw SyntaxError \/ exists v, parse text = Ok v.
Proof.
  unfold parse. destruct (parse_text (fuel_for text) text); eauto.
Qed.

(** ** Where a value ends *)

Lemma reads_up_to_prefix P p s r :
  reads_up_to P s r -> reads_up_to P (p ++ s) r.
Proof.
  intros (x & c & -> & Hc). exists (p ++ x), c.
  now rewrite <- app_assoc.
Qed.

Lemma reads_up_to_cons P a s r :
  reads_up_to P s r -> reads_up_to P (a :: s) r.
Proof. apply (reads_up_to_prefix P [a]). Qed.

Lemma reads_up_to_more P s s' r :
  reads_up_to P s s' -> s' = r \/ reads_up_to P s' r -> reads_up_to P s r.
Proof.
  intros H [<-|(x & c & -> & Hc)]; [exact H|].
  destruct H as (x' & c' & -> & _).
  exists (x' ++ c' :: x), c. split; [|exact Hc].
  now rewrite <- app_assoc.
Qed.

Lemma reads_up_to_weaken (P Q : code_unit -> bool) s r :
  (forall c, P c = true -> Q c = true) ->
  reads_up_to P s r -> reads_up_to Q s r.
Proof. intros H (x & c & -> & Hc). exists x, c. auto. Qed.

Lemma dropWhile_prefix f s : exists w, s = w ++ dropWhile f s.
Proof.
  induction s as [|c s (w & IH)]; [now exists []|].
  simpl. destruct (f c); [|now exists []].
  exists (c :: w). simpl. now f_equal.
Qed.

Lemma reads_up_to_skip_ws P s r :
  reads_up_to P (skip_ws s) r -> reads_up_to P s r.
Proof.
  intros H. destruct (dropWhile_prefix is_ws s) as (w & Hw).
  rewrite Hw. now apply reads_up_to_prefix.
Qed.

Lemma reads_up_to_strip P p c s r :
  strip_prefix (p ++ [c]) s = Some r -> P c = true -> reads_up_to P s r.
Proof.
  intros H Hc. apply strip_prefix_app in H. subst.
  exists p, c. now rewrite <- app_assoc.
Qed.

Lemma span_digits_reads s ds r :
  span_digits s = (ds, r) -> ds <> [] -> reads_up_to is_digit s r.
Proof.
  revert ds r. induction s as [|c s IH]; intros ds r H Hne; simpl in H.
  - inversion H; subst. congruence.
  - destruct (is_digit c) eqn:Hc; [|inversion H; subst; congruence].
    destruct (span_digits s) as [ds' r'] eqn:E. inversion H; subst.
    destruct ds' as [|d ds'].
    + destruct s as [|c' s]; simpl in E.
      * inversion E; subst. now exists [], c.
      * destruct (is_digit c'); [destruct (span_digits s); discriminate|].
        inversion E; subst. now exists [], c.
    + apply reads_up_to_cons. apply (IH (d :: ds')); [reflexivity|discriminate].
Qed.

Lemma span_digits_same s r : span_digits s = ([], r) -> s = r.
Proof.
  destruct s as [|c s]; simpl; [now intros [= <-]|].
  destruct (is_digit c); [destruct (span_digits s); discriminate|].
  now intros [= <-].
Qed.

Lemma parse_int_reads s ds r :
  parse_int s = Some (ds, r) -> reads_up_to is_digit s r.
Proof.
  unfold parse_int. intros H.
  destruct s as [|c s]; [discriminate|].
  destruct (c =? 48) eqn:E0.
  { apply N.eqb_eq in E0. inversion H; subst. now exists [], 48. }
  destruct (is_digit c) eqn:Hc; [|discriminate].
  destruct (span_digits s) as [ds' r'] eqn:E. inversion H; subst.
  destruct ds' as [|d ds'].
  - apply span_digits_same in E. subst. now exists [], c.
  - apply reads_up_to_cons. apply (span_digits_reads _ _ _ E). discriminate.
Qed.

Lemma parse_frac_reads s ds r :
  parse_frac s = Some (ds, r) -> s = r \/ reads_up_to is_digit s r.
Proof.
  unfold parse_frac. intros H.
  destruct (strip_prefix (u ".") s) as [r0|] eqn:E; [|inversion H; auto].
  apply strip_prefix_app in E. subst.
  destruct (span_digits r0) as [ds' r'] eqn:E'.
  destruct ds' as [|d ds']; [discriminate|]. inversion H; subst.
  right. apply reads_up_to_prefix.
  apply (span_digits_reads _ _ _ E'). discriminate.
Qed.

Lemma parse_exp_digits_reads sign s e r :
  parse_exp_digits sign s = Some (e, r) -> reads_up_to is_digit s r.
Proof.
  unfold parse_exp_digits. intros H.
  destruct (span_digits s) as [ds' r'] eqn:E'.
  destruct ds' as [|d ds']; [discriminate|]. inversion H; subst.
  apply (span_digits_reads _ _ _ E'). discriminate.
Qed.

Lemma parse_exp_reads s e r :
  parse_exp s = Some (e, r) -> s = r \/ reads_up_to is_digit s r.
Proof.
  unfold parse_exp. intros H.
  destruct s as [|c s]; [inversion H; auto|].
  destruct ((c =? 101) || (c =? 69)); [|inversion H; auto].
  right. apply reads_up_to_cons.
  destruct (strip_prefix (u "+") s) as [r1|] eqn:E1.
  { apply strip_prefix_app in E1. subst. apply reads_up_to_prefix.
    now apply parse_exp_digits_reads in H. }
  destruct (strip_prefix (u "-") s) as [r2|] eqn:E2.
  { apply strip_prefix_app in E2. subst. apply reads_up_to_prefix.
    now apply parse_exp_digits_reads in H. }
  now apply parse_exp_digits_reads in H.
Qed.

Lemma parse_number_reads s n r :
  parse_number s = Some (n, r) -> reads_up_to is_digit s r.
Proof.
  unfold parse_number. intros H.
  assert (exists sign p s1, s = p ++ s1 /\
            match parse_int s1 with
            | Some (int, s2) =>
                match parse_frac s2 with
                | Some (frac, s3) =>
                    match parse_exp s3 with
                    | Some (e, s4) =>
                        Some (mkNumber sign (digits_value (int ++ frac))
                                (e - Z.of_nat (length frac))%Z, s4)
                    | None => None
                    end
                | None => None
                end
            | None => None
            end = Some (n, r)) as (sign & p & s1 & -> & H').
  { destruct (strip_prefix (u "-") s) as [r0|] eqn:E.
    - apply strip_prefix_app in E. now exists true, (u "-"), r0.
    - now exists false, [], s. }
  clear H. apply reads_up_to_prefix.
  destruct (parse_int s1) as [[int s2]|] eqn:E1; [|discriminate].
  destruct (parse_frac s2) as [[frac s3]|] eqn:E2; [|discriminate].
  destruct (parse_exp s3) as [[e s4]|] eqn:E3; [|discriminate].
  inversion H'; subst.
  apply parse_int_reads in E1. apply parse_frac_reads in E2.
  apply parse_exp_reads in E3.
  eapply reads_up_to_more; [|exact E3].
  eapply reads_up_to_more; [exact E1|exact E2].
Qed.

Lemma parse_chars_reads s acc str r :
  parse_chars s acc = Some (str, r) -> exists x, s = x ++ 34 :: r.
Proof.
  remember (length s) as n eqn:Hn.
  assert (length s <= n)%nat as Hle by lia. clear Hn.
  revert s acc Hle.
  induction n as [|n IH]; intros s acc Hle H.
  - destruct s; [discriminate|simpl in Hle; lia].
  - destruct s as [|c s]; [discriminate|]. simpl in Hle. simpl in H.
    destruct (c =? 34) eqn:Eq.
    { apply N.eqb_eq in Eq. inversion H; subst. now exists []. }
    destruct (c =? 92).
    + destruct s as [|e s]; [discriminate|]. simpl in Hle.
      repeat match type of H with
             | (if ?b then parse_chars _ _ else _) = _ =>
                 destruct b;
                 [apply IH in H; [|lia]; destruct H as (x & ->);
                  now exists (c :: e :: x)|]
             end.
      destruct (e =? 117); [|discriminate].
      destruct s as [|h1 [|h2 [|h3 [|h4 s]]]]; try discriminate.
      destruct (hex4 h1 h2 h3 h4); [|discriminate].
      simpl in Hle. apply IH in H; [|lia]. destruct H as (x & ->).
      now exists (c :: e :: h1 :: h2 :: h3 :: h4 :: x).
    + destruct (c <? 32); [discriminate|].
      apply IH in H; [|lia]. destruct H as (x & ->). now exists (c :: x).
Qed.

Lemma closes_digit c : is_digit c = true -> closes c = true.
Proof. unfold closes. intros ->. now rewrite !orb_true_r. Qed.

(** What a value is read from ends with a closing brace, bracket or quote,
    a digit, or the last letter of [true], [false] or [null]. *)
Lemma parse_reads fuel :
  (forall s v r, parse_value fuel s = Parsed v r -> reads_up_to closes s r)
  /\ (forall s acc v r,
        parse_elements fuel s acc = Parsed v r -> reads_up_to closes s r)
  /\ (forall s acc v r,
        parse_members fuel s acc = Parsed v r -> reads_up_to closes s r).
Proof.
  induction fuel as [|fuel (IHv & IHe & IHm)].
  { repeat split; intros; discriminate. }
  repeat split.
  - intros s v r H. cbn [parse_value parse_elements parse_members] in H.
    destruct s as [|c s]; [discriminate|].
    destruct (c =? 123).
    { apply reads_up_to_cons, reads_up_to_skip_ws.
      destruct (strip_prefix (u "}") (skip_ws s)) eqn:E.
      - inversion H; subst. now apply (reads_up_to_strip closes [] 125).
      - now apply IHm in H. }
    destruct (c =? 91).
    { apply reads_up_to_cons, reads_up_to_skip_ws.
      destruct (strip_prefix (u "]") (skip_ws s)) eqn:E.
      - inversion H; subst. now apply (reads_up_to_strip closes [] 93).
      - now apply IHe in H. }
    destruct (c =? 34).
    { destruct (parse_chars s []) as [[str r']|] eqn:E; [|discriminate].
      inversion H; subst. apply parse_chars_reads in E as (x & ->).
      now exists (c :: x), 34. }
    unfold parse_literal in H.
    destruct (c =? 116).
    { destruct (strip_prefix (u "true") (c :: s)) eqn:E; [|discriminate].
      inversion H; subst. now apply (reads_up_to_strip closes (u "tru") 101). }
    destruct (c =? 102).
    { destruct (strip_prefix (u "false") (c :: s)) eqn:E; [|discriminate].
      inversion H; subst. now apply (reads_up_to_strip closes (u "fals") 101). }
    destruct (c =? 110).
    { destruct (strip_prefix (u "null") (c :: s)) eqn:E; [|discriminate].
      inversion H; subst. now apply (reads_up_to_strip closes (u "nul") 108). }
    destruct (parse_number (c :: s)) as [[n r']|] eqn:E; [|discriminate].
    inversion H; subst. apply parse_number_reads in E.
    apply (reads_up_to_weaken is_digit); [exact closes_digit|exact E].
  - intros s acc v r H. cbn [parse_value parse_elements parse_members] in H.
    destruct (parse_value fuel s) as [v0 r0| |] eqn:E; try discriminate.
    apply IHv in E. eapply reads_up_to_more; [exact E|]. right.
    apply reads_up_to_skip_ws.
    destruct (strip_prefix (u ",") (skip_ws r0)) as [r1|] eqn:E1.
    { apply strip_prefix_app in E1. rewrite E1.
      apply reads_up_to_prefix, reads_up_to_skip_ws. now apply IHe in H. }
    destruct (strip_prefix (u "]") (skip_ws r0)) eqn:E2; [|discriminate].
    inversion H; subst. now apply (reads_up_to_strip closes [] 93).
  - intros s acc v r H. cbn [parse_value parse_elements parse_members] in H.
    destruct (strip_prefix [34] s) as [r0|] eqn:E0; [|discriminate].
    apply strip_prefix_app in E0. subst s. apply reads_up_to_prefix.
    destruct (parse_chars r0 []) as [[key r1]|] eqn:E1; [|discriminate].
    apply parse_chars_reads in E1 as (x & ->).
    apply reads_up_to_prefix, reads_up_to_cons, reads_up_to_skip_ws.
    destruct (strip_prefix (u ":") (skip_ws r1)) as [r2|] eqn:E2; [|discriminate].
    apply strip_prefix_app in E2. rewrite E2.
    apply reads_up_to_prefix, reads_up_to_skip_ws.
    destruct (parse_value fuel (skip_ws r2)) as [v0 r3| |] eqn:E3; try discriminate.
    apply IHv in E3. eapply reads_up_to_more; [exact E3|]. right.
    apply reads_up_to_skip_ws.
    destruct (strip_prefix (u ",") (skip_ws r3)) as [r4|] eqn:E4.
    { apply strip_prefix_app in E4. rewrite E4.
      apply reads_up_to_prefix, reads_up_to_skip_ws. now apply IHm in H. }
    destruct (strip_prefix (u "}") (skip_ws r3)) eqn:E5; [|discriminate].
    inversion H; subst. now apply (reads_up_to_strip closes [] 125).
Qed.

Lemma dropWhile_all (f : code_unit -> bool) w s :
  forallb f w = true -> dropWhile f (w ++ s) = dropWhile f s.
Proof.
  induction w as [|c w IH]; simpl; [reflexivity|].
  intros H. apply andb_prop in H as [Hc Hw]. rewrite Hc. auto.
Qed.

Lemma dropWhile_nil_all (f : code_unit -> bool) w : dropWhile f w = [] -> forallb f w = true.
Proof.
  induction w as [|c w IH]; simpl; [reflexivity|].
  destruct (f c); [exact IH|discriminate].
Qed.

Lemma forallb_rev_true (f : code_unit -> bool) w :
  forallb f w = true -> forallb f (rev w) = true.
Proof.
  rewrite !forallb_forall. intros H x Hx. apply H. now apply in_rev.
Qed.

(** The last code unit of a text that [f] does not hold of is determined. *)
Lemma last_outside_unique (f : code_unit -> bool) a c w b c' r :
  a ++ c :: w = b ++ c' :: r ->
  f c = false -> f c' = false ->
  forallb f w = true -> forallb f r = true ->
  c = c'.
Proof.
  intros H Hc Hc' Hw Hr.
  apply (f_equal (fun s => dropWhile f (rev s))) in H.
  rewrite !rev_app_distr in H. cbn [rev] in H.
  rewrite <- !app_assoc in H. cbn [app] in H.
  rewrite !dropWhile_all in H by (apply forallb_rev_true; assumption).
  cbn [dropWhile] in H. rewrite Hc, Hc' in H. now injection H.
Qed.

Lemma closes_not_ws c : closes c = true -> is_ws c = false.
Proof.
  intros Hc. destruct (is_ws c) eqn:E; [|reflexivity].
  unfold is_ws in E.
  repeat (apply orb_prop in E as [E|E]);
    apply N.eqb_eq in E; subst c; discriminate Hc.
Qed.

(** A text whose last code unit before trailing white space cannot end a
    value is not a JSON text; so for a text cut after an opening brace or
    bracket, a comma or a colon. *)
Lemma parse_unclosed text c w :
  closes c = false -> is_ws c = false -> forallb is_ws w = true ->
  parse (text ++ c :: w) = Throw SyntaxError.
Proof.
  intros Hc Hws Hw.
  destruct (parse_total (text ++ c :: w)) as [H|[v H]]; [exact H|exfalso].
  unfold parse, parse_text in H.
  destruct (parse_value (fuel_for (text ++ c :: w)) (skip_ws (text ++ c :: w)))
    as [v0 r| |] eqn:E; try discriminate.
  destruct (skip_ws r) eqn:Er; [|discriminate].
  apply dropWhile_nil_all in Er.
  apply (proj1 (parse_reads _)) in E as (x & c' & E & Hc').
  destruct (dropWhile_prefix is_ws (text ++ c :: w)) as (w0 & Hw0).
  unfold skip_ws in E. rewrite E, app_assoc in Hw0.
  assert (c = c') as <-.
  { apply (last_outside_unique is_ws _ _ _ _ _ _ Hw0); auto.
    now apply closes_not_ws. }
  congruence.
Qed.

(** ** Events and outcomes *)

Lemma outcome_bindM {A B : Type} (m : M A) (k : A -> M B) :
  outcome (bindM m k)
  = match outcome m with
    | Ok a => outcome (k a)
    | Throw e => Throw e
    end.
Proof.
  destruct m as [t [a|e]]; simpl; [destruct (k a)|]; reflexivity.
Qed.

Lemma events_bindM {A B : Type} (m : M A) (k : A -> M B) :
  events (bindM m k)
  = events m ++ match outcome m with
                | Ok a => events (k a)
                | Throw _ => []
                end.
Proof.
  destruct m as [t [a|e]]; simpl; [destruct (k a); reflexivity|].
  now rewrite app_nil_r.
Qed.

Lemma outcome_try_catch {A : Type} (body : M A) (handler : exn -> M A) :
  outcome (try_catch body handler)
  = match outcome body with
    | Ok a => Ok a
    | Throw e => outcome (handler e)
    end.
Proof.
  destruct body as [t [a|e]]; simpl; [|destruct (handler e)]; reflexivity.
Qed.

Lemma events_try_catch {A : Type} (body : M A) (handler : exn -> M A) :
  events (try_catch body handler)
  = events body ++ match outcome body with
                   | Ok _ => []
                   | Throw e => events (handler e)
                   end.
Proof.
  destruct body as [t [a|e]]; simpl; [|destruct (handler e); reflexivity].
  now rewrite app_nil_r.
Qed.

Lemma requests_app t1 t2 : requests (t1 ++ t2) = requests t1 ++ requests t2.
Proof.
  induction t1 as [|[text|text e|r] t1 IH]; simpl; [reflexivity|auto|auto|].
  now rewrite IH.
Qed.

(** The promise always resolves: to the draft of the [try] block, or to the
    error sentence when the block throws, whatever it throws. *)
Lemma generateDraft_outcome rawStories :
  outcome (generateDraft rawStories)
  = Ok match outcome (try_block rawStories) with
       | Ok draft => draft
       | Throw _ => ERROR_DRAFT
       end.
Proof.
  unfold generateDraft. rewrite outcome_bindM. cbn [emit outcome snd].
  rewrite outcome_try_catch.
  destruct (outcome (try_block rawStories)); reflexivity.
Qed.

Lemma complete_outcome rawStories :
  outcome (complete rawStories)
  = (completion <- create (request_for rawStories) ;; first_content completion).
Proof.
  unfold complete. rewrite !outcome_bindM. cbn [emit outcome snd lift].
  destruct (create (request_for rawStories)); reflexivity.
Qed.

Lemma complete_events rawStories :
  requests (events (complete rawStories)) = [request_for rawStories].
Proof.
  unfold complete. rewrite !events_bindM, !requests_app.
  cbn [emit outcome snd events fst lift requests app].
  destruct (create (request_for rawStories)); reflexivity.
Qed.

Lemma try_block_outcome rawStories :
  outcome (try_block rawStories)
  = if useOpenAI || useDeepseek
    then
      rawJSON <- outcome (complete rawStories) ;;
      match rawJSON with
      | None | Some [] => Ok (header ++ NO_OUTPUT)
      | Some (c :: s) => draft_post (c :: s)
      end
    else Throw (Error NO_KEYS).
Proof.
  unfold try_block.
  replace (negb useOpenAI && negb useDeepseek) with (negb (useOpenAI || useDeepseek))
    by apply negb_orb.
  destruct (useOpenAI || useDeepseek); [|reflexivity].
  cbn [negb]. rewrite outcome_bindM.
  destruct (outcome (complete rawStories)) as [[[|c s]|]|e]; reflexivity.
Qed.

Lemma try_block_returns rawStories rawJSON :
  provider_returns rawStories rawJSON ->
  outcome (try_block rawStories)
  = match rawJSON with
    | None | Some [] => Ok (header ++ NO_OUTPUT)
    | Some (c :: s) => draft_post (c :: s)
    end.
Proof.
  intros (Hsel & completion & Hc & Hf).
  rewrite try_block_outcome, Hsel, complete_outcome, Hc. cbn [bind].
  rewrite Hf. reflexivity.
Qed.

Lemma try_block_requests rawStories :
  requests (events (try_block rawStories))
  = if useOpenAI || useDeepseek then [request_for rawStories] else [].
Proof.
  unfold try_block.
  replace (negb useOpenAI && negb useDeepseek) with (negb (useOpenAI || useDeepseek))
    by apply negb_orb.
  destruct (useOpenAI || useDeepseek); [|reflexivity].
  cbn [negb]. rewrite events_bindM, requests_app, complete_events.
  destruct (outcome (complete rawStories)) as [[[|c s]|]|e]; reflexivity.
Qed.

Lemma generateDraft_requests rawStories :
  requests (events (generateDraft rawStories))
  = if useOpenAI || useDeepseek then [request_for rawStories] else [].
Proof.
  unfold generateDraft. rewrite events_bindM, requests_app.
  cbn [emit outcome snd events fst requests app].
  change (fst (try_catch ?b ?h)) with (events (try_catch b h)).
  rewrite events_try_catch, requests_app, try_block_requests.
  destruct (outcome (try_block rawStories)); cbn [requests]; [now rewrite app_nil_r|].
  cbn. now rewrite app_nil_r.
Qed.

(** ** Properties read *)

Lemma Get_object props key :
  Get (VObject props) key
  = Ok match own_property props key with
       | Some x => x
       | None => VUndefined
       end.
Proof. cbn [Get]. destruct (own_property props key); reflexivity. Qed.

Lemma Get_array_length elems :
  Get (VArray elems) (u "length") = Ok (VNumber (number_of_nat (length elems))).
Proof. reflexivity. Qed.

Lemma Get_array_map elems :
  Get (VArray elems) (u "map") = Ok (VFunction Array_prototype_map).
Proof. reflexivity. Qed.

Lemma is_zero_length (n : nat) :
  is_zero (number_of_nat n) = (n =? 0)%nat.
Proof.
  unfold is_zero, number_of_nat. cbn [mantissa exp10].
  rewrite andb_false_l, orb_false_r.
  destruct n; [reflexivity|]. apply N.eqb_neq. lia.
Qed.

Lemma call_map_array elems callback :
  call_map (VArray elems) callback = mapM callback elems.
Proof. reflexivity. Qed.

(** The draft of a response whose selected value is an array. *)
Lemma draft_post_array rawJSON v items :
  JSON.parse (cleanJSON rawJSON) = Ok v ->
  contentArray v = Ok (VArray items) ->
  draft_post rawJSON
  = match items with
    | [] => Ok (header ++ NO_STORIES)
    | _ :: _ =>
        blocks <- mapM renderItem items ;;
        Ok (header ++ join [LF; LF] blocks)
    end.
Proof.
  intros Hp Hc. unfold draft_post. rewrite Hp. cbn [bind]. rewrite Hc.
  cbn [bind]. rewrite Get_array_length. cbn [bind strict_equals_zero].
  rewrite is_zero_length, call_map_array.
  destruct items; reflexivity.
Qed.

Lemma contentArray_first props items :
  own_property props (u "interestingTweetsOrStories") = Some (VArray items) ->
  contentArray (VObject props) = Ok (VArray items).
Proof.
  intros H. unfold contentArray. rewrite Get_object, H. reflexivity.
Qed.

Lemma contentArray_neither props :
  absent_or_falsy (own_property props (u "interestingTweetsOrStories")) = true ->
  absent_or_falsy (own_property props (u "stories")) = true ->
  contentArray (VObject props) = Ok (VArray []).
Proof.
  intros H1 H2. unfold contentArray. rewrite !Get_object. cbn [bind].
  destruct (own_property props (u "interestingTweetsOrStories")) as [a|];
    cbn [absent_or_falsy] in H1;
    [apply negb_true_iff in H1; rewrite H1|];
    (destruct (own_property props (u "stories")) as [b|];
     cbn [absent_or_falsy] in H2;
     [apply negb_true_iff in H2; rewrite H2|]); reflexivity.
Qed.

Lemma mapM_renderItem items fields :
  Forall2 (fun item f => description_of item = Ok (fst f)
                         /\ link_of item = Ok (snd f)) items fields ->
  mapM renderItem items
  = Ok (map (fun f => [BULLET; 32] ++ fst f ++ [LF; 32; 32] ++ snd f) fields).
Proof.
  induction 1 as [|item f items fields [Hd Hl] _ IH]; [reflexivity|].
  cbn [mapM map]. unfold renderItem at 1. rewrite Hd, Hl. cbn [bind].
  rewrite IH. reflexivity.
Qed.

(** A text cut after an opening brace or bracket, a comma or a colon ends
    in the error sentence. *)
Lemma unclosed_text_outcome rawStories c rawJSON text o w :
  provider_returns rawStories (Some (c :: rawJSON)) ->
  cleanJSON (c :: rawJSON) = text ++ o :: w ->
  closes o = false -> is_ws o = false -> forallb is_ws w = true ->
  outcome (generateDraft rawStories) = Ok ERROR_DRAFT.
Proof.
  intros Hp Hc Ho Hws Hw.
  rewrite generateDraft_outcome, (try_block_returns _ _ Hp).
  unfold draft_post. rewrite Hc, parse_unclosed by assumption. reflexivity.
Qed.

(** * The claims *)

(** C1, as amended. When the response parses, the selected value is a
    non-empty array, and every item of it yields a description and a link
    (no item is [null], and the two selected fields convert to strings), the
    draft is the header followed by one block per item: the bullet, a space,
    the description, a newline, two spaces, the link; the blocks are joined
    by a blank line and keep the order of the response. *)
Theorem C1_items_in_order rawStories c rawJSON v items fields :
  provider_returns rawStories (Some (c :: rawJSON)) ->
  JSON.parse (cleanJSON (c :: rawJSON)) = Ok v ->
  contentArray v = Ok (VArray items) ->
  items <> [] ->
  Forall2 (fun item f => description_of item = Ok (fst f)
                         /\ link_of item = Ok (snd f)) items fields ->
  outcome (generateDraft rawStories)
  = Ok (header
        ++ join [LF; LF]
             (map (fun f => [BULLET; 32] ++ fst f ++ [LF; 32; 32] ++ snd f)
                fields)).
Proof.
  intros Hp Hparse Hsel Hne Hfields.
  rewrite generateDraft_outcome, (try_block_returns _ _ Hp).
  rewrite (draft_post_array _ _ _ Hparse Hsel).
  destruct items as [|item items]; [congruence|].
  rewrite (mapM_renderItem _ _ Hfields). reflexivity.
Qed.

(** C2, as amended. An item that is an object renders as the bullet, a
    space, its description, a newline, two spaces and its link, where the
    description is the string conversion of the [description] field if that
    is present and truthy (not null, false, zero or the empty string), else
    of the [headline] field, and the link that of the [story_or_tweet_link]
    field if present and truthy, else of the [link] field; an absent field
    gives the text "undefined". A number, a boolean and an array have none
    of the fields and render "undefined" twice; a string renders
    "undefined" and the text of its inherited [link] function; reading a
    field of [null] throws. *)
Theorem C2_first_truthy_field :
  (forall props,
      renderItem (VObject props)
      = rendered
          (first_truthy (field props (u "description"))
             (field props (u "headline")))
          (first_truthy (field props (u "story_or_tweet_link"))
             (field props (u "link"))))
  /\ (forall item,
         has_no_fields item = true ->
         renderItem item
         = Ok ([BULLET; 32] ++ u "undefined" ++ [LF; 32; 32] ++ u "undefined"))
  /\ (forall s,
         renderItem (VString s)
         = Ok ([BULLET; 32] ++ u "undefined" ++ [LF; 32; 32]
               ++ Function_toString String_prototype_link))
  /\ renderItem VNull = Throw TypeError.
Proof.
  assert (forall props primary fallback,
             either_property (VObject props) primary fallback
             = Ok (first_truthy (field props primary) (field props fallback)))
    as Hsel.
  { intros props primary fallback. unfold either_property, field.
    rewrite !Get_object. cbn [bind].
    destruct (own_property props primary) as [[| |[|]|n|[|c t]|l|o|f]|];
      cbn [ToBoolean first_truthy negb]; try reflexivity.
    destruct (is_zero n); reflexivity. }
  split; [|split; [|split]].
  - intros props. unfold renderItem, description_of, link_of, rendered.
    rewrite !Hsel. cbn [bind].
    destruct (ToString (first_truthy (field props (u "description"))
                          (field props (u "headline")))) as [d|e];
      [|reflexivity].
    cbn [bind].
    destruct (ToString (first_truthy (field props (u "story_or_tweet_link"))
                          (field props (u "link")))); reflexivity.
  - intros item Hitem. destruct item; try discriminate Hitem; reflexivity.
  - intros s. reflexivity.
  - reflexivity.
Qed.

(** C3. The one request of a call goes to the OpenAI endpoint, with the
    OpenAI key, whenever that key is set, also when the Deepseek key is set
    too; it goes to the Deepseek endpoint when only the Deepseek key is set;
    no request is made when neither is; the two selection flags are never
    both true. *)
Theorem C3_provider_selection rawStories :
  requests (events (generateDraft rawStories))
  = (if is_set (OPENAI_API_KEY env)
     then [mkRequest OPENAI_URL (OPENAI_API_KEY env) (u "gpt-3.5-turbo")
             (messages_for rawStories)]
     else if is_set (DEEPSEEK_API_KEY env)
     then [mkRequest DEEPSEEK_URL (DEEPSEEK_API_KEY env) (u "deepseek-chat")
             (messages_for rawStories)]
     else [])
  /\ useOpenAI && useDeepseek = false.
Proof.
  rewrite generateDraft_requests. unfold request_for, useDeepseek, useOpenAI.
  destruct (is_set (OPENAI_API_KEY env)), (is_set (DEEPSEEK_API_KEY env));
    split; reflexivity.
Qed.

(** C4. Whatever the kind of the error - no key set, the completion call
    rejected, the cleaned-up text not parsed - the call resolves to the one
    sentence "Error generating draft post.". *)
Theorem C4_every_error_is_the_error_sentence rawStories :
  fails rawStories ->
  outcome (generateDraft rawStories) = Ok ERROR_DRAFT.
Proof.
  intros H. rewrite generateDraft_outcome.
  destruct H as [H1 H2|e Hsel He|c rawJSON e Hp He].
  - rewrite try_block_outcome. unfold useDeepseek, useOpenAI.
    rewrite H1, H2. reflexivity.
  - rewrite try_block_outcome, Hsel, complete_outcome, He. reflexivity.
  - rewrite (try_block_returns _ _ Hp). unfold draft_post. rewrite He.
    reflexivity.
Qed.


(** C6, as amended. When the provider returns no content the draft is the
    header and "No output.", whatever parsing would have given; when the
    content parses to a response whose selected array is empty, or to an
    object in which neither key holds a truthy value (each is absent, null,
    false, zero or the empty string), the draft is the header and "No
    trending stories or tweets found at this time.". Both are drafts, not
    errors. *)
Theorem C6_fallback_sentences rawStories sentence :
  falls_back rawStories sentence ->
  outcome (generateDraft rawStories) = Ok (header ++ sentence).
Proof.
  intros H. rewrite generateDraft_outcome.
  destruct H as [Hp|c rawJSON v Hp Hparse Hsel|c rawJSON props Hp Hparse H1 H2].
  - now rewrite (try_block_returns _ _ Hp).
  - rewrite (try_block_returns _ _ Hp).
    now rewrite (draft_post_array _ _ _ Hparse Hsel).
  - rewrite (try_block_returns _ _ Hp).
    now rewrite (draft_post_array _ _ _ Hparse (contentArray_neither _ H1 H2)).
Qed.

(** C7. When the content, cleaned up, is not a JSON text, [JSON.parse]
    throws and the call resolves to "Error generating draft post.". *)
Theorem C7_invalid_text_is_an_error rawStories c rawJSON :
  provider_returns rawStories (Some (c :: rawJSON)) ->
  JSON.parse (cleanJSON (c :: rawJSON)) = Throw SyntaxError ->
  outcome (generateDraft rawStories) = Ok ERROR_DRAFT.
Proof.
  intros Hp He.
  rewrite generateDraft_outcome, (try_block_returns _ _ Hp).
  unfold draft_post. rewrite He. reflexivity.
Qed.

(** C8. The fenced text and the bare text of the same payload clean up to
    the same text and parse to the same value, an object whose one key holds
    the empty array. *)
Theorem C8_fenced_parses_as_bare :
  JSON.parse (cleanJSON Example.fenced) = JSON.parse (cleanJSON Example.bare)
  /\ JSON.parse (cleanJSON Example.bare)
     = Ok (VObject [(u "interestingTweetsOrStories", VArray [])]).
Proof. split; vm_compute; reflexivity. Qed.

(** C9. Every call resolves to a string: the error sentence when the [try]
    block throws, and else a draft that starts with the dated header. *)
Theorem C9_always_a_string rawStories :
  (exists draft, outcome (generateDraft rawStories) = Ok draft)
  /\ match outcome (try_block rawStories) with
     | Throw _ => outcome (generateDraft rawStories) = Ok ERROR_DRAFT
     | Ok _ =>
         exists body, outcome (generateDraft rawStories) = Ok (header ++ body)
     end.
Proof.
  rewrite generateDraft_outcome. split; [eauto|].
  destruct (outcome (try_block rawStories)) as [draft|e] eqn:E; [|reflexivity].
  rewrite try_block_outcome in E.
  destruct (useOpenAI || useDeepseek); [|discriminate].
  destruct (outcome (complete rawStories)) as [[[|c s]|]|e]; cbn [bind] in E;
    [exists NO_OUTPUT; congruence| |exists NO_OUTPUT; congruence|discriminate].
  unfold draft_post in E.
  destruct (JSON.parse (cleanJSON (c :: s))) as [v|]; [|discriminate].
  cbn [bind] in E.
  destruct (contentArray v) as [items|]; [|discriminate]. cbn [bind] in E.
  destruct (Get items (u "length")) as [len|]; [|discriminate].
  cbn [bind] in E.
  destruct (strict_equals_zero len); [exists NO_STORIES; congruence|].
  destruct (call_map items renderItem) as [blocks|]; [|discriminate].
  exists (join [LF; LF] blocks). cbn [bind] in E. congruence.
Qed.

(** C10. When the parsed object binds [interestingTweetsOrStories] to the
    empty array, the draft is the header and the sentence for no stories,
    whatever the object holds under [stories]. *)
Theorem C10_empty_array_wins rawStories c rawJSON props :
  provider_returns rawStories (Some (c :: rawJSON)) ->
  JSON.parse (cleanJSON (c :: rawJSON)) = Ok (VObject props) ->
  own_property props (u "interestingTweetsOrStories") = Some (VArray []) ->
  outcome (generateDraft rawStories) = Ok (header ++ NO_STORIES).
Proof.
  intros Hp Hparse Hkey.
  rewrite generateDraft_outcome, (try_block_returns _ _ Hp).
  now rewrite (draft_post_array _ _ _ Hparse (contentArray_first _ _ Hkey)).
Qed.

(** * Further properties *)

(** ** The request *)

(** Every request of a call carries the fixed system message and then the
    raw stories, unchanged, as the user message; its key is set and is the
    key of the endpoint it goes to; the Deepseek endpoint is only used when
    the OpenAI key is not set. *)
Theorem request_is_well_formed rawStories r :
  In r (requests (events (generateDraft rawStories))) ->
  messages r = [mkMessage system SYSTEM_PROMPT; mkMessage user rawStories]
  /\ is_set (apiKey r) = true
  /\ ((baseURL r = OPENAI_URL /\ apiKey r = OPENAI_API_KEY env
       /\ model r = u "gpt-3.5-turbo")
      \/ (baseURL r = DEEPSEEK_URL /\ apiKey r = DEEPSEEK_API_KEY env
          /\ model r = u "deepseek-chat"
          /\ is_set (OPENAI_API_KEY env) = false)).
Proof.
  rewrite generateDraft_requests. unfold request_for, useDeepseek, useOpenAI.
  destruct (is_set (OPENAI_API_KEY env)) eqn:Ho;
    [|destruct (is_set (DEEPSEEK_API_KEY env)) eqn:Hd];
    cbn [orb andb negb In].
  - intros [<-|[]]. cbn [messages apiKey baseURL model]. auto 6.
  - intros [<-|[]]. cbn [messages apiKey baseURL model].
    split; [reflexivity|]. split; [assumption|]. right. auto.
  - intros [].
Qed.

(** The draft depends on the raw stories only through what the endpoint
    answers: two inputs with the same answer give the same draft. *)
Theorem draft_depends_on_the_answer_only rawStories rawStories' :
  create (request_for rawStories) = create (request_for rawStories') ->
  outcome (generateDraft rawStories) = outcome (generateDraft rawStories').
Proof.
  intros H. rewrite !generateDraft_outcome, !try_block_outcome.
  rewrite !complete_outcome, H. reflexivity.
Qed.

(** ** The answer *)

(** An empty completion text is handled as no text: the draft is the header
    and "No output.". *)
Theorem empty_content_is_no_output rawStories :
  provider_returns rawStories (Some []) ->
  outcome (generateDraft rawStories) = Ok (header ++ NO_OUTPUT).
Proof.
  intros Hp. now rewrite generateDraft_outcome, (try_block_returns _ _ Hp).
Qed.

(** An answer without choices ends in the error sentence. *)
Theorem no_choices_is_an_error rawStories completion :
  (useOpenAI || useDeepseek) = true ->
  create (request_for rawStories) = Ok completion ->
  Response.choices completion = [] ->
  outcome (generateDraft rawStories) = Ok ERROR_DRAFT.
Proof.
  intros Hsel Hc Hn.
  rewrite generateDraft_outcome, try_block_outcome, Hsel, complete_outcome, Hc.
  cbn [bind]. unfold first_content. rewrite Hn. reflexivity.
Qed.

(** The console gets one error line exactly when the [try] block throws,
    and the line carries what was thrown. *)
Theorem errors_are_logged rawStories :
  error_lines (events (generateDraft rawStories))
  = match outcome (try_block rawStories) with
    | Throw e => [(u "Error generating draft post", e)]
    | Ok _ => []
    end.
Proof.
  assert (forall t1 t2, error_lines (t1 ++ t2) = error_lines t1 ++ error_lines t2)
    as Happ.
  { induction t1 as [|[text|text e|r] t1 IH]; intros t2; simpl; auto.
    now rewrite IH. }
  assert (error_lines (events (try_block rawStories)) = []) as Htry.
  { unfold try_block.
    destruct (negb useOpenAI && negb useDeepseek); [reflexivity|].
    rewrite events_bindM, Happ. unfold complete.
    rewrite !events_bindM, !Happ, !outcome_bindM.
    cbn [emit lift events outcome fst snd error_lines app].
    destruct (create (request_for rawStories)) as [completion|e];
      [|reflexivity].
    cbn [events fst error_lines app].
    destruct (first_content completion) as [[[|c s]|]|e]; reflexivity. }
  unfold generateDraft. rewrite events_bindM, Happ.
  cbn [emit outcome snd events fst error_lines app].
  change (fst (try_catch ?b ?h)) with (events (try_catch b h)).
  rewrite events_try_catch, Happ, Htry.
  destruct (outcome (try_block rawStories)); reflexivity.
Qed.

(** When the endpoint answers with a text, the call writes its opening
    line with the length of the raw stories, names the endpoint, makes the
    one request, and writes the text to the console before it cleans and
    parses it; an error line follows only when the rest fails. *)
Theorem text_is_logged_before_parsing rawStories c rawJSON :
  provider_returns rawStories (Some (c :: rawJSON)) ->
  events (generateDraft rawStories)
  = [ConsoleLog (u "Generating a post draft with raw stories ("
                 ++ Number_toString (number_of_nat (length rawStories))
                 ++ u " characters)...");
     ConsoleLog (if is_set (OPENAI_API_KEY env) then u "Using OpenAI API..."
                 else u "Using Deepseek API...");
     ChatCompletionsCreate (request_for rawStories);
     ConsoleLog (c :: rawJSON)]
    ++ match draft_post (c :: rawJSON) with
       | Ok _ => []
       | Throw e => [ConsoleError (u "Error generating draft post") e]
       end.
Proof.
  intros (Hsel & completion & Hc & Hf).
  unfold generateDraft. rewrite events_bindM.
  cbn [emit outcome snd events fst app].
  change (fst (try_catch ?b ?h)) with (events (try_catch b h)).
  rewrite events_try_catch.
  assert (negb useOpenAI && negb useDeepseek = false) as Hneg.
  { rewrite <- negb_orb, Hsel. reflexivity. }
  unfold try_block. rewrite Hneg.
  rewrite events_bindM, outcome_bindM, complete_outcome, Hc. cbn [bind].
  rewrite Hf. unfold complete. rewrite !events_bindM, !outcome_bindM.
  cbn [emit lift outcome snd events fst app]. rewrite Hc.
  cbn [events fst app snd]. fold useOpenAI.
  destruct (draft_post (c :: rawJSON)); reflexivity.
Qed.

(** ** The parsed response *)

Lemma mapM_throws {A B : Type} (f : A -> result B) l x e :
  In x l -> f x = Throw e -> exists e', mapM f l = Throw e'.
Proof.
  intros Hin Hx. induction l as [|a l IH]; [destruct Hin|].
  cbn [mapM]. destruct (f a) as [b|e0] eqn:Ea; [|now exists e0].
  cbn [bind]. destruct Hin as [->|Hin]; [congruence|].
  destruct (IH Hin) as (e' & ->). now exists e'.
Qed.

Lemma call_map_not_array x callback :
  (forall elems, x <> VArray elems) ->
  exists e, call_map x callback = Throw e.
Proof.
  intros Hx. unfold call_map.
  destruct x as [| |b|n|s|elems|props|f];
    try (exists TypeError; reflexivity).
  - now destruct (Hx elems).
  - rewrite Get_object. cbn [bind].
    destruct (own_property props (u "map")) as [[| |b|n|s|l|o|[|]]|];
      exists TypeError; reflexivity.
Qed.

Lemma draft_post_selected rawJSON v x len :
  JSON.parse (cleanJSON rawJSON) = Ok v ->
  contentArray v = Ok x ->
  Get x (u "length") = Ok len ->
  draft_post rawJSON
  = if strict_equals_zero len then Ok (header ++ NO_STORIES)
    else blocks <- call_map x renderItem ;; Ok (header ++ join [LF; LF] blocks).
Proof.
  intros Hp Hc Hl. unfold draft_post. rewrite Hp. cbn [bind].
  rewrite Hc. cbn [bind]. rewrite Hl. reflexivity.
Qed.

(** One [null] among the items, wherever it stands, and the whole call ends
    in the error sentence: no item is rendered. *)
Theorem null_item_is_an_error rawStories c rawJSON v items :
  provider_returns rawStories (Some (c :: rawJSON)) ->
  JSON.parse (cleanJSON (c :: rawJSON)) = Ok v ->
  contentArray v = Ok (VArray items) ->
  In VNull items ->
  outcome (generateDraft rawStories) = Ok ERROR_DRAFT.
Proof.
  intros Hp Hparse Hsel Hin.
  rewrite generateDraft_outcome, (try_block_returns _ _ Hp).
  rewrite (draft_post_array _ _ _ Hparse Hsel).
  destruct items as [|item items]; [destruct Hin|].
  destruct (mapM_throws renderItem (item :: items) VNull TypeError Hin eq_refl)
    as (e & ->).
  reflexivity.
Qed.

(** When the selected value is not an array (a string, a number, [true], an
    object), the call ends in the error sentence, unless the value has a
    [length] that is the number zero: then the draft is the one for no
    stories. *)
Theorem selected_value_is_not_an_array rawStories c rawJSON v x len :
  provider_returns rawStories (Some (c :: rawJSON)) ->
  JSON.parse (cleanJSON (c :: rawJSON)) = Ok v ->
  contentArray v = Ok x ->
  (forall elems, x <> VArray elems) ->
  Get x (u "length") = Ok len ->
  outcome (generateDraft rawStories)
  = Ok (if strict_equals_zero len then header ++ NO_STORIES else ERROR_DRAFT).
Proof.
  intros Hp Hparse Hsel Hx Hlen.
  rewrite generateDraft_outcome, (try_block_returns _ _ Hp).
  rewrite (draft_post_selected _ _ _ _ Hparse Hsel Hlen).
  destruct (strict_equals_zero len); [reflexivity|].
  destruct (call_map_not_array x renderItem Hx) as (e & ->). reflexivity.
Qed.

(** A response that is [null] ends in the error sentence. *)
Theorem null_response_is_an_error rawStories c rawJSON :
  provider_returns rawStories (Some (c :: rawJSON)) ->
  JSON.parse (cleanJSON (c :: rawJSON)) = Ok VNull ->
  outcome (generateDraft rawStories) = Ok ERROR_DRAFT.
Proof.
  intros Hp Hparse.
  rewrite generateDraft_outcome, (try_block_returns _ _ Hp).
  unfold draft_post. rewrite Hparse. reflexivity.
Qed.

(** A response that is an array, a string, a number or a boolean has neither
    key: the draft is the one for no stories, also when the response is an
    array of well-formed items. *)
Theorem response_without_keys rawStories c rawJSON v :
  provider_returns rawStories (Some (c :: rawJSON)) ->
  JSON.parse (cleanJSON (c :: rawJSON)) = Ok v ->
  primitive_or_array v = true ->
  outcome (generateDraft rawStories) = Ok (header ++ NO_STORIES).
Proof.
  intros Hp Hparse Hv.
  rewrite generateDraft_outcome, (try_block_returns _ _ Hp).
  assert (contentArray v = Ok (VArray [])) as Hsel.
  { destruct v; try discriminate Hv; reflexivity. }
  now rewrite (draft_post_array _ _ _ Hparse Hsel).
Qed.

(** The array under [stories] is the one rendered when the first key is
    absent or holds [null], [false], zero or the empty string. *)
Theorem stories_is_the_fallback rawStories c rawJSON props items blocks :
  provider_returns rawStories (Some (c :: rawJSON)) ->
  JSON.parse (cleanJSON (c :: rawJSON)) = Ok (VObject props) ->
  absent_or_falsy (own_property props (u "interestingTweetsOrStories")) = true ->
  own_property props (u "stories") = Some (VArray items) ->
  mapM renderItem items = Ok blocks ->
  outcome (generateDraft rawStories)
  = Ok (header ++ match items with
                  | [] => NO_STORIES
                  | _ :: _ => join [LF; LF] blocks
                  end).
Proof.
  intros Hp Hparse H1 H2 Hb.
  rewrite generateDraft_outcome, (try_block_returns _ _ Hp).
  assert (contentArray (VObject props) = Ok (VArray items)) as Hsel.
  { unfold contentArray. rewrite !Get_object, H2. cbn [bind].
    destruct (own_property props (u "interestingTweetsOrStories")) as [a|];
      [|reflexivity].
    cbn [absent_or_falsy] in H1. apply negb_true_iff in H1. now rewrite H1. }
  rewrite (draft_post_array _ _ _ Hparse Hsel), Hb.
  destruct items; reflexivity.
Qed.

(** When the first key holds an array with items, these are the ones
    rendered, whatever [stories] holds. *)
Theorem first_key_has_priority rawStories c rawJSON props item items blocks :
  provider_returns rawStories (Some (c :: rawJSON)) ->
  JSON.parse (cleanJSON (c :: rawJSON)) = Ok (VObject props) ->
  own_property props (u "interestingTweetsOrStories")
  = Some (VArray (item :: items)) ->
  mapM renderItem (item :: items) = Ok blocks ->
  outcome (generateDraft rawStories) = Ok (header ++ join [LF; LF] blocks).
Proof.
  intros Hp Hparse H1 Hb.
  rewrite generateDraft_outcome, (try_block_returns _ _ Hp).
  rewrite (draft_post_array _ _ _ Hparse (contentArray_first _ _ H1)), Hb.
  reflexivity.
Qed.

(** An object item with none of the four fields is rendered with the word
    "undefined" for its description and for its link. *)
Theorem missing_fields_render_undefined props :
  own_property props (u "description") = None ->
  own_property props (u "headline") = None ->
  own_property props (u "story_or_tweet_link") = None ->
  own_property props (u "link") = None ->
  renderItem (VObject props)
  = Ok ([BULLET; 32] ++ u "undefined" ++ [LF; 32; 32] ++ u "undefined").
Proof.
  intros H1 H2 H3 H4.
  unfold renderItem, description_of, link_of, either_property.
  rewrite !Get_object, H1, H2, H3, H4. reflexivity.
Qed.

(** A draft that is not the error sentence is the header and a body that is
    not empty: one of the two fallback sentences, or blocks, the first of
    which starts with the bullet. *)
Theorem body_is_never_empty rawStories draft :
  outcome (try_block rawStories) = Ok draft ->
  outcome (generateDraft rawStories) = Ok draft
  /\ exists body,
       draft = header ++ body
       /\ (body = NO_OUTPUT \/ body = NO_STORIES
           \/ exists rest, body = BULLET :: 32 :: rest).
Proof.
  intros E. rewrite generateDraft_outcome, E. split; [reflexivity|].
  rewrite try_block_outcome in E.
  destruct (useOpenAI || useDeepseek); [|discriminate].
  destruct (outcome (complete rawStories)) as [[[|c s]|]|e]; cbn [bind] in E;
    [exists NO_OUTPUT; split; [congruence|auto]|
    |exists NO_OUTPUT; split; [congruence|auto]|discriminate].
  unfold draft_post in E.
  destruct (JSON.parse (cleanJSON (c :: s))) as [v|]; [|discriminate].
  cbn [bind] in E.
  destruct (contentArray v) as [x|]; [|discriminate]. cbn [bind] in E.
  destruct (Get x (u "length")) as [len|] eqn:Hlen; [|discriminate].
  cbn [bind] in E.
  destruct (strict_equals_zero len) eqn:Hz;
    [exists NO_STORIES; split; [congruence|auto]|].
  destruct (call_map x renderItem) as [blocks|] eqn:Hmap; [|discriminate].
  cbn [bind] in E. exists (join [LF; LF] blocks). split; [congruence|].
  right. right.
  unfold call_map in Hmap.
  destruct x as [| |b|n|t|elems|props|f];
    try discriminate Hmap;
    try (cbn [Get bind] in Hmap;
         repeat match type of Hmap with
                | context [if ?b then _ else _] => destruct b
                end; discriminate Hmap).
  - rewrite Get_array_length in Hlen. injection Hlen as <-.
    cbn [strict_equals_zero] in Hz. rewrite is_zero_length in Hz.
    rewrite Get_array_map in Hmap. cbn [bind] in Hmap.
    destruct elems as [|item elems]; [discriminate Hz|].
    cbn [mapM] in Hmap. unfold renderItem at 1 in Hmap.
    destruct (description_of item) as [d|]; [|discriminate].
    destruct (link_of item) as [l|]; [|discriminate]. cbn [bind] in Hmap.
    destruct (mapM renderItem elems) as [bs|]; [|discriminate].
    cbn [bind] in Hmap. injection Hmap as <-.
    destruct bs as [|b bs]; cbn [join]; unfold block; cbn [u app];
      eexists; reflexivity.
  - rewrite Get_object in Hmap. cbn [bind] in Hmap.
    destruct (own_property props (u "map")) as [[| |b|n|t|l|o|[|]]|];
      discriminate Hmap.
Qed.

(** ** The clean-up *)

Lemma deletes_refl s : deletes_to s s.
Proof. induction s; constructor; assumption. Qed.

Lemma deletes_all s : deletes_to s [].
Proof. induction s; constructor; assumption. Qed.

Lemma deletes_trans a b c :
  deletes_to a b -> deletes_to b c -> deletes_to a c.
Proof.
  intros H. revert c.
  induction H as [|x s r H IH|x s r H IH]; intros t Ht.
  - exact Ht.
  - inversion Ht; subst; constructor; auto.
  - constructor. auto.
Qed.

Lemma deletes_app a a' b b' :
  deletes_to a a' -> deletes_to b b' -> deletes_to (a ++ b) (a' ++ b').
Proof.
  intros Ha Hb. induction Ha; cbn [app]; [assumption|constructor..];
    assumption.
Qed.

Lemma deletes_rev s r : deletes_to s r -> deletes_to (rev s) (rev r).
Proof.
  induction 1 as [|x s r H IH|x s r H IH]; cbn [rev].
  - constructor.
  - apply deletes_app; [assumption|apply deletes_refl].
  - rewrite <- (app_nil_r (rev r)).
    apply deletes_app; [assumption|apply deletes_all].
Qed.

Lemma deletes_length s r : deletes_to s r -> (length r <= length s)%nat.
Proof. induction 1; simpl; lia. Qed.

Lemma deletes_dropWhile f s : deletes_to s (dropWhile f s).
Proof.
  induction s as [|c s IH]; cbn [dropWhile]; [constructor|].
  destruct (f c); [now constructor|apply deletes_refl].
Qed.

Lemma deletes_trim s : deletes_to s (trim s).
Proof.
  unfold trim.
  apply (deletes_trans _ (dropWhile is_space s)); [apply deletes_dropWhile|].
  rewrite <- (rev_involutive (dropWhile is_space s)) at 1.
  apply deletes_rev, deletes_dropWhile.
Qed.

Lemma deletes_replace_fence_json_from n :
  forall s, deletes_to s (replace_fence_json_from n s).
Proof.
  induction n as [|n IH]; intros s; cbn [replace_fence_json_from].
  - apply deletes_refl.
  - destruct (match_fence_json s) as [r|] eqn:E.
    + apply (deletes_trans _ r); [|apply IH].
      unfold match_fence_json in E.
      destruct (strip_prefix FENCE_JSON s) as [r0|] eqn:E0; [|discriminate].
      apply strip_prefix_app in E0. injection E as <-. subst s.
      rewrite <- (app_nil_l (dropWhile is_space r0)).
      apply deletes_app; [apply deletes_all|apply deletes_dropWhile].
    + destruct s as [|c s]; constructor. apply IH.
Qed.

Lemma deletes_replace_fence_end s : deletes_to s (replace_fence_end s).
Proof.
  induction s as [|c s IH]; cbn [replace_fence_end]; [constructor|].
  destruct (match_fence_end (c :: s)); [apply deletes_all|now constructor].
Qed.

(** The clean-up only deletes: what it returns is the text with some code
    units taken out, nothing added and nothing reordered; so it is never
    longer than the text. *)
Theorem cleanJSON_only_deletes s :
  deletes_to s (cleanJSON s) /\ (length (cleanJSON s) <= length s)%nat.
Proof.
  assert (deletes_to s (cleanJSON s)) as H.
  { unfold cleanJSON, replace_fence_json.
    eapply deletes_trans; [apply deletes_replace_fence_json_from|].
    eapply deletes_trans; [apply deletes_replace_fence_end|].
    apply deletes_trim. }
  split; [exact H|]. now apply deletes_length.
Qed.

Lemma dropWhile_head f s c r : dropWhile f s = c :: r -> f c = false.
Proof.
  induction s as [|x s IH]; cbn [dropWhile]; [discriminate|].
  destruct (f x) eqn:E; [exact IH|]. now intros [= <- _].
Qed.

Lemma trim_head s c r : trim s = c :: r -> is_space c = false.
Proof.
  unfold trim. intros H.
  destruct (dropWhile_prefix is_space (rev (dropWhile is_space s))) as (w & Hw).
  apply (f_equal (@rev code_unit)) in Hw.
  rewrite rev_involutive, rev_app_distr, H in Hw.
  now apply (dropWhile_head is_space s c (r ++ rev w)).
Qed.

Lemma trim_last s r c : trim s = r ++ [c] -> is_space c = false.
Proof.
  unfold trim. intros H.
  apply (f_equal (@rev code_unit)) in H.
  rewrite rev_involutive, rev_app_distr in H. cbn [rev app] in H.
  now apply dropWhile_head in H.
Qed.

(** What the clean-up returns has no white space at its start and none at
    its end. *)
Theorem cleanJSON_is_trimmed s :
  (forall c r, cleanJSON s = c :: r -> is_space c = false)
  /\ (forall r c, cleanJSON s = r ++ [c] -> is_space c = false).
Proof.
  split; intros ? ?; [apply trim_head|apply trim_last].
Qed.

Lemma no_backtick_plain s :
  ~ In 96 s ->
  ~ infix FENCE_JSON s /\ (forall a w, all_space w -> s <> a ++ FENCE ++ w).
Proof.
  intros Hs. split.
  - intros (a & b & ->). apply Hs, in_or_app. right. now left.
  - intros a w _ ->. apply Hs, in_or_app. right. now left.
Qed.

(** Lines 83-109 give the same for a payload without backticks bare and
    wrapped between the marker "```json" and a closing fence. *)
Lemma draft_post_fenced w0 w1 body w2 w3 :
  all_space w0 -> all_space w1 -> all_space w2 -> all_space w3 ->
  ~ In 96 body ->
  draft_post (w0 ++ FENCE_JSON ++ w1 ++ body ++ w2 ++ FENCE ++ w3)
  = draft_post body.
Proof.
  intros H0 H1 H2 H3 Hb. unfold draft_post.
  rewrite cleanJSON_wrapped by assumption.
  destruct (no_backtick_plain body Hb) as [Hj Hf].
  now rewrite (cleanJSON_plain body Hj Hf).
Qed.

Lemma trim_ends_with text o :
  is_space o = false ->
  trim (text ++ [o]) = dropWhile is_space text ++ [o].
Proof.
  intros Ho. unfold trim.
  rewrite dropWhile_stop by assumption.
  rewrite rev_app_distr. cbn [rev app dropWhile]. rewrite Ho.
  cbn [rev]. now rewrite rev_involutive.
Qed.

(** A completion text without backticks that stops after an opening brace
    or bracket, a comma or a colon ends in the error sentence. *)
Theorem cut_text_is_an_error rawStories c rawJSON text o w :
  provider_returns rawStories (Some (c :: rawJSON)) ->
  c :: rawJSON = text ++ o :: w ->
  ~ In 96 text -> all_space w ->
  o = 123 \/ o = 91 \/ o = 44 \/ o = 58 ->
  outcome (generateDraft rawStories) = Ok ERROR_DRAFT.
Proof.
  intros Hp Htext Hb Hw Ho.
  assert (is_space o = false /\ closes o = false /\ JSON.is_ws o = false
          /\ o <> 96) as (Hs & Hc & Hj & H96).
  { destruct Ho as [-> | [-> | [-> | ->]]]; repeat split; discriminate. }
  rewrite generateDraft_outcome, (try_block_returns _ _ Hp).
  unfold draft_post. rewrite Htext.
  assert (~ In 96 (text ++ o :: w)) as Hall.
  { intros Hi. apply in_app_or in Hi as [Hi|[Hi|Hi]]; [tauto|congruence|].
    now apply (space_no_backtick w). }
  destruct (no_backtick_plain _ Hall) as [H1 H2].
  rewrite (cleanJSON_plain _ H1 H2).
  change (text ++ o :: w) with (text ++ [o] ++ w).
  rewrite app_assoc, trim_space_r, trim_ends_with by assumption.
  rewrite parse_unclosed by (assumption || reflexivity). reflexivity.
Qed.

End GenerateDraft.

(** * Two answers compared *)

(** A payload that is not empty and has no backticks gives the same result
    of the call whether the endpoint answers with it bare or wrapped between
    the marker "```json" and a closing fence, with any white space around
    the fences. *)
Theorem fence_is_transparent env currentDate create create' Number_toString
    Function_toString rawStories c body w0 w1 w2 w3 :
  provider_returns env create rawStories (Some (c :: body)) ->
  provider_returns env create' rawStories
    (Some (w0 ++ FENCE_JSON ++ w1 ++ (c :: body) ++ w2 ++ FENCE ++ w3)) ->
  all_space w0 -> all_space w1 -> all_space w2 -> all_space w3 ->
  ~ In 96 (c :: body) ->
  outcome (generateDraft env currentDate create' Number_toString
             Function_toString rawStories)
  = outcome (generateDraft env currentDate create Number_toString
               Function_toString rawStories).
Proof.
  intros Hbare Hwrapped H0 H1 H2 H3 Hb.
  pose proof (draft_post_fenced currentDate Number_toString Function_toString
                w0 w1 (c :: body) w2 w3 H0 H1 H2 H3 Hb) as Hsame.
  assert (exists c' s,
             w0 ++ FENCE_JSON ++ w1 ++ (c :: body) ++ w2 ++ FENCE ++ w3
             = c' :: s) as (c' & s & E).
  { destruct w0 as [|x w0]; [change FENCE_JSON with (96 :: u "``json")|];
      cbn [app]; eauto. }
  rewrite E in Hwrapped.
  assert (draft_post currentDate Number_toString Function_toString (c' :: s)
          = draft_post currentDate Number_toString Function_toString
              (c :: body)) as Hd.
  { eapply eq_trans; [|exact Hsame]. f_equal. symmetry. exact E. }
  rewrite !generateDraft_outcome.
  rewrite (try_block_returns _ _ _ _ _ _ _ Hbare).
  rewrite (try_block_returns _ _ _ _ _ _ _ Hwrapped).
  now rewrite Hd.
Qed.

(** * getCronSources *)

(** The list of sources is empty exactly when neither key is set; a key that
    is the empty string counts as not set. *)
Theorem no_key_no_source env :
  snd (Sources.getCronSources env) = Ok []
  <-> is_set (Sources.X_API_BEARER_TOKEN env) = false
      /\ is_set (Sources.FIRECRAWL_API_KEY env) = false.
Proof.
  unfold Sources.getCronSources, Sources.try_block. cbn [snd].
  destruct (is_set (Sources.X_API_BEARER_TOKEN env)),
           (is_set (Sources.FIRECRAWL_API_KEY env));
    cbn [app]; split; intros H; try discriminate H; auto;
    destruct H; discriminate.
Qed.

(** Each key gates its own sources: the account on X is listed exactly when
    the X token is set, and each of the three web sites exactly when the
    Firecrawl key is set. *)
Theorem each_key_gates_its_sources env :
  exists sources,
    snd (Sources.getCronSources env) = Ok sources
    /\ (In Sources.ORANGEPI sources
        <-> is_set (Sources.X_API_BEARER_TOKEN env) = true)
    /\ (forall site,
          In site [Sources.CNX_SOFTWARE; Sources.ANDROIDPIMP;
                   Sources.LILIPUTING] ->
          (In site sources
           <-> is_set (Sources.FIRECRAWL_API_KEY env) = true)).
Proof.
  assert (forall site,
             In site [Sources.CNX_SOFTWARE; Sources.ANDROIDPIMP;
                      Sources.LILIPUTING] ->
             site <> Sources.ORANGEPI) as Hother.
  { intros site Hsite ->. cbn [In] in Hsite.
    repeat (destruct Hsite as [Hsite|Hsite]; [discriminate Hsite|]).
    exact Hsite. }
  unfold Sources.getCronSources, Sources.try_block. cbn [snd].
  eexists. split; [reflexivity|].
  split; [|intros site Hsite]; rewrite in_app_iff.
  - destruct (is_set (Sources.X_API_BEARER_TOKEN env)),
             (is_set (Sources.FIRECRAWL_API_KEY env));
      (split;
       [intros [H|H]; try reflexivity; try (destruct H; fail);
        exfalso; exact (Hother _ H eq_refl)
       |intros E; try discriminate E; right; left; reflexivity]).
  - destruct (is_set (Sources.X_API_BEARER_TOKEN env)),
             (is_set (Sources.FIRECRAWL_API_KEY env));
      (split;
       [intros [H|H]; try reflexivity; try (destruct H; fail);
        destruct H as [H|[]]; exfalso; apply (Hother site Hsite);
        symmetry; exact H
       |intros E; try discriminate E; left; exact Hsite]).
Qed.

(** No source is listed twice, every identifier is an https address, and
    there are at most four. *)
Theorem sources_are_distinct_addresses env :
  exists sources,
    snd (Sources.getCronSources env) = Ok sources
    /\ NoDup (map Sources.identifier sources)
    /\ Forall (fun s => exists rest,
                 Sources.identifier s = u "https://" ++ rest) sources
    /\ (length sources <= 4)%nat.
Proof.
  unfold Sources.getCronSources, Sources.try_block. cbn [snd].
  eexists. split; [reflexivity|].
  destruct (is_set (Sources.X_API_BEARER_TOKEN env)),
           (is_set (Sources.FIRECRAWL_API_KEY env)); cbn [app map length];
    (split; [|split; [|lia]]).
  all: try (repeat constructor; eexists; reflexivity).
  all: repeat constructor; cbn [In]; intros H;
    repeat (destruct H as [H|H]; [discriminate H|]); exact H.
Qed.

(** * The claims on the examples *)

(** A call on [Example.rawStories] in the example host, with the given keys
    and the given endpoint. *)
Local Abbreviation run env endpoint :=
  (generateDraft env Example.date endpoint Example.Number_toString
     Example.Function_toString Example.rawStories).

Local Abbreviation example_header := (header Example.date).

(** Two items come out as two blocks, in the order of the response. *)
Lemma C1_items_in_order_witness :
  outcome (run Example.env_openai (Example.reply (Some Example.two_items)))
  = Ok (example_header
        ++ [BULLET] ++ u " B" ++ [LF] ++ u "  http://y" ++ [LF; LF]
        ++ [BULLET] ++ u " C" ++ [LF] ++ u "  http://z").
Proof.
  apply (C1_items_in_order Example.env_openai Example.date
           (Example.reply (Some Example.two_items))
           Example.Number_toString Example.Function_toString
           Example.rawStories 123 (tl Example.two_items)
           (VObject
              [(u "interestingTweetsOrStories",
                VArray
                  [VObject [(u "description", VString (u "B"));
                            (u "story_or_tweet_link", VString (u "http://y"))];
                   VObject [(u "description", VString (u "C"));
                            (u "story_or_tweet_link", VString (u "http://z"))]])])
           [VObject [(u "description", VString (u "B"));
                     (u "story_or_tweet_link", VString (u "http://y"))];
            VObject [(u "description", VString (u "C"));
                     (u "story_or_tweet_link", VString (u "http://z"))]]
           [(u "B", u "http://y"); (u "C", u "http://z")]).
  - split; [reflexivity|]. eexists. split; reflexivity.
  - vm_compute. reflexivity.
  - vm_compute. reflexivity.
  - discriminate.
  - repeat constructor.
Defined.

(** An array that holds [null] is selected and is not empty, and the call
    resolves to the error sentence, which does not start with the header. *)
Lemma C1_null_item_counterexample :
  JSON.parse (cleanJSON Example.null_item)
  = Ok (VObject [(u "stories", VArray [VNull])])
  /\ contentArray (VObject [(u "stories", VArray [VNull])])
     = Ok (VArray [VNull])
  /\ outcome (run Example.env_openai (Example.reply (Some Example.null_item)))
     = Ok ERROR_DRAFT
  /\ ~ (exists body,
          outcome (run Example.env_openai
                     (Example.reply (Some Example.null_item)))
          = Ok (example_header ++ body)).
Proof.
  repeat split; try (vm_compute; reflexivity).
  intros (body & H). vm_compute in H. discriminate H.
Qed.

(** The item of [Example.one_story]. *)
Lemma C2_first_truthy_field_witness :
  renderItem Example.Number_toString Example.Function_toString
    (VObject [(u "headline", VString (u "A"));
              (u "link", VString (u "http://x"))])
  = Ok ([BULLET; 32] ++ u "A" ++ [LF; 32; 32] ++ u "http://x").
Proof.
  rewrite (proj1 (C2_first_truthy_field Example.Number_toString
                    Example.Function_toString)).
  reflexivity.
Defined.

(** A description that is present and empty, without a headline, is
    rendered as "undefined", not as the empty description; a description
    that is zero gives way to the headline. *)
Lemma C2_empty_description_counterexample :
  own_property [(u "description", VString []);
                (u "story_or_tweet_link", VString (u "http://y"))]
    (u "description") = Some (VString [])
  /\ renderItem Example.Number_toString Example.Function_toString
       (VObject [(u "description", VString []);
                 (u "story_or_tweet_link", VString (u "http://y"))])
     = Ok ([BULLET; 32] ++ u "undefined" ++ [LF; 32; 32] ++ u "http://y")
  /\ renderItem Example.Number_toString Example.Function_toString
       (VObject [(u "description", VString []);
                 (u "story_or_tweet_link", VString (u "http://y"))])
     <> Ok ([BULLET; 32] ++ [] ++ [LF; 32; 32] ++ u "http://y")
  /\ renderItem Example.Number_toString Example.Function_toString
       (VObject [(u "description", VNumber (mkNumber false 0 0));
                 (u "headline", VString (u "H"));
                 (u "link", VString (u "http://x"))])
     = Ok ([BULLET; 32] ++ u "H" ++ [LF; 32; 32] ++ u "http://x").
Proof.
  repeat split; try reflexivity. vm_compute. discriminate.
Qed.

(** No key is set. *)
Lemma C4_every_error_is_the_error_sentence_witness :
  outcome (run Example.env_none Example.down) = Ok ERROR_DRAFT.
Proof.
  apply C4_every_error_is_the_error_sentence.
  apply ConfigurationError; reflexivity.
Defined.



(** The endpoint answers with no content. *)
Lemma C6_fallback_sentences_witness :
  outcome (run Example.env_deepseek (Example.reply None))
  = Ok (example_header ++ NO_OUTPUT).
Proof.
  apply C6_fallback_sentences. apply NoOutput.
  split; [reflexivity|]. eexists. split; reflexivity.
Defined.

(** The first key is absent and [stories] holds a number: neither key
    yields a collection, and the call ends in the error sentence, not in the
    draft for no stories. *)
Lemma C6_number_under_stories_counterexample :
  JSON.parse (cleanJSON Cases.stories_number)
  = Ok (VObject [(u "stories", VNumber (mkNumber false 5 0))])
  /\ own_property [(u "stories", VNumber (mkNumber false 5 0))]
       (u "interestingTweetsOrStories") = None
  /\ outcome (run Example.env_openai
                (Example.reply (Some Cases.stories_number)))
     = Ok ERROR_DRAFT
  /\ outcome (run Example.env_openai
                (Example.reply (Some Cases.stories_number)))
     <> Ok (example_header ++ NO_STORIES).
Proof.
  repeat split; try (vm_compute; reflexivity). vm_compute. discriminate.
Qed.

(** The text stops after the opening bracket. *)
Lemma C7_invalid_text_is_an_error_witness :
  outcome (run Example.env_openai (Example.reply (Some Example.truncated)))
  = Ok ERROR_DRAFT.
Proof.
  apply (C7_invalid_text_is_an_error Example.env_openai Example.date
           (Example.reply (Some Example.truncated))
           Example.Number_toString Example.Function_toString
           Example.rawStories 123 (tl Example.truncated)).
  - split; [reflexivity|]. eexists. split; reflexivity.
  - vm_compute. reflexivity.
Defined.

(** The first key holds the empty array and [stories] holds an item. *)
Lemma C10_empty_array_wins_witness :
  outcome (run Example.env_both
             (Example.reply (Some Example.empty_and_stories)))
  = Ok (example_header ++ NO_STORIES).
Proof.
  apply (C10_empty_array_wins Example.env_both Example.date
           (Example.reply (Some Example.empty_and_stories))
           Example.Number_toString Example.Function_toString
           Example.rawStories 123 (tl Example.empty_and_stories)
           [(u "interestingTweetsOrStories", VArray []);
            (u "stories",
             VArray [VObject [(u "headline", VString (u "A"));
                              (u "link", VString (u "http://x"))]])]).
  - split; [reflexivity|]. eexists. split; reflexivity.
  - vm_compute. reflexivity.
  - reflexivity.
Defined.

(** * More examples *)

(** Both keys set: the request goes to the OpenAI endpoint. *)
Example both_keys_call_openai :
  map baseURL
    (requests (events (run Example.env_both (Example.reply None))))
  = [u "https://api.openai.com"].
Proof. vm_compute. reflexivity. Qed.

(** Only the Deepseek key set. *)
Example deepseek_key_calls_deepseek :
  map baseURL
    (requests (events (run Example.env_deepseek (Example.reply None))))
  = [u "https://api.deepseek.com"].
Proof. vm_compute. reflexivity. Qed.

(** The fenced payload with an empty array. *)
Example fenced_empty_array :
  outcome (run Example.env_openai (Example.reply (Some Example.fenced)))
  = Ok (example_header ++ NO_STORIES).
Proof. vm_compute. reflexivity. Qed.

(** The other shape of the response: [stories], [headline], [link]. *)
Example one_story_draft :
  outcome (run Example.env_openai (Example.reply (Some Example.one_story)))
  = Ok (example_header ++ [BULLET] ++ u " A" ++ [LF] ++ u "  http://x").
Proof. vm_compute. reflexivity. Qed.

(** An item without any of the four fields is rendered with the text
    "undefined" twice. *)
Example item_without_fields :
  outcome (run Example.env_openai (Example.reply (Some (q "{'stories':[{}]}"))))
  = Ok (example_header
        ++ [BULLET] ++ u " undefined" ++ [LF] ++ u "  undefined").
Proof. vm_compute. reflexivity. Qed.

(** The marker after a text with backticks is removed; a closing fence
    without an opening one is removed. *)
Example marker_and_fence_anywhere :
  cleanJSON Cases.marker_after_backticks = q "`x` {}"
  /\ cleanJSON Cases.closing_fence_only = q "{}".
Proof. split; vm_compute; reflexivity. Qed.

(** A fence without the tag [json] is not removed at the start, and the
    text that is left does not parse. *)
Example plain_fence_stays :
  cleanJSON Example.plain_fence = q "```" ++ [LF] ++ q "{}"
  /\ outcome (run Example.env_openai (Example.reply (Some Example.plain_fence)))
     = Ok ERROR_DRAFT.
Proof. split; vm_compute; reflexivity. Qed.

(** A key bound to something that is neither empty nor an array, and a
    response that is [null], end in the error sentence. *)
Example selected_value_not_an_array :
  outcome (run Example.env_openai (Example.reply (Some (q "{'stories':5}"))))
  = Ok ERROR_DRAFT
  /\ outcome (run Example.env_openai (Example.reply (Some (q "null"))))
     = Ok ERROR_DRAFT.
Proof. split; vm_compute; reflexivity. Qed.

(** An empty completion text is no output either. *)
Example empty_text_is_no_output :
  outcome (run Example.env_openai (Example.reply (Some [])))
  = Ok (example_header ++ NO_OUTPUT).
Proof. vm_compute. reflexivity. Qed.

(** An endpoint that rejects, and an answer without choices. *)
Example endpoint_failures :
  outcome (run Example.env_openai Example.down) = Ok ERROR_DRAFT
  /\ outcome (run Example.env_openai
                (fun _ => Ok (Response.mkCompletion [])))
     = Ok ERROR_DRAFT.
Proof. split; vm_compute; reflexivity. Qed.

(** The events of a call without keys: the two console lines, the second
    with the error that was thrown. *)
Example events_without_keys :
  events (run Example.env_none Example.down)
  = [ConsoleLog
       (u "Generating a post draft with raw stories (15 characters)...");
     ConsoleError (u "Error generating draft post") (Error NO_KEYS)].
Proof. vm_compute. reflexivity. Qed.

(** * The further properties on the examples *)

Lemma request_is_well_formed_witness :
  messages (request_for Example.env_deepseek Example.rawStories)
  = [mkMessage system SYSTEM_PROMPT; mkMessage user Example.rawStories]
  /\ is_set (apiKey (request_for Example.env_deepseek Example.rawStories))
     = true.
Proof.
  destruct (request_is_well_formed Example.env_deepseek Example.date
              (Example.reply None) Example.Number_toString
              Example.Function_toString Example.rawStories
              (request_for Example.env_deepseek Example.rawStories))
    as (Hm & Hk & _).
  - vm_compute. left. reflexivity.
  - split; [exact Hm|exact Hk].
Defined.

Lemma draft_depends_on_the_answer_only_witness :
  outcome (run Example.env_openai (Example.reply (Some Example.one_story)))
  = outcome (generateDraft Example.env_openai Example.date
               (Example.reply (Some Example.one_story))
               Example.Number_toString Example.Function_toString
               (u "other stories")).
Proof.
  apply draft_depends_on_the_answer_only. reflexivity.
Defined.

Lemma empty_content_is_no_output_witness :
  outcome (run Example.env_openai (Example.reply (Some [])))
  = Ok (example_header ++ NO_OUTPUT).
Proof.
  apply empty_content_is_no_output.
  split; [reflexivity|]. eexists. split; reflexivity.
Defined.

Lemma no_choices_is_an_error_witness :
  outcome (run Example.env_openai Cases.no_choices) = Ok ERROR_DRAFT.
Proof.
  apply (no_choices_is_an_error Example.env_openai Example.date
           Cases.no_choices Example.Number_toString
           Example.Function_toString Example.rawStories
           (Response.mkCompletion []));
    reflexivity.
Defined.

Lemma null_item_is_an_error_witness :
  outcome (run Example.env_openai (Example.reply (Some Cases.null_second)))
  = Ok ERROR_DRAFT.
Proof.
  apply (null_item_is_an_error Example.env_openai Example.date
           (Example.reply (Some Cases.null_second))
           Example.Number_toString Example.Function_toString
           Example.rawStories 123 (tl Cases.null_second)
           (VObject
              [(u "stories",
                VArray [VObject [(u "headline", VString (u "A"));
                                 (u "link", VString (u "http://x"))];
                        VNull])])
           [VObject [(u "headline", VString (u "A"));
                     (u "link", VString (u "http://x"))];
            VNull]).
  - split; [reflexivity|]. eexists. split; reflexivity.
  - vm_compute. reflexivity.
  - vm_compute. reflexivity.
  - right. left. reflexivity.
Defined.

Lemma selected_value_is_not_an_array_witness :
  outcome (run Example.env_openai (Example.reply (Some Cases.stories_text)))
  = Ok ERROR_DRAFT.
Proof.
  apply (selected_value_is_not_an_array Example.env_openai Example.date
           (Example.reply (Some Cases.stories_text))
           Example.Number_toString Example.Function_toString
           Example.rawStories 123 (tl Cases.stories_text)
           (VObject [(u "stories", VString (u "soon"))])
           (VString (u "soon")) (VNumber (number_of_nat 4))).
  - split; [reflexivity|]. eexists. split; reflexivity.
  - vm_compute. reflexivity.
  - vm_compute. reflexivity.
  - discriminate.
  - reflexivity.
Defined.

Lemma null_response_is_an_error_witness :
  outcome (run Example.env_openai (Example.reply (Some (q "null"))))
  = Ok ERROR_DRAFT.
Proof.
  apply (null_response_is_an_error Example.env_openai Example.date
           (Example.reply (Some (q "null")))
           Example.Number_toString Example.Function_toString
           Example.rawStories 110 (u "ull")).
  - split; [reflexivity|]. eexists. split; reflexivity.
  - vm_compute. reflexivity.
Defined.

Lemma response_without_keys_witness :
  outcome (run Example.env_openai (Example.reply (Some Cases.bare_array)))
  = Ok (example_header ++ NO_STORIES).
Proof.
  apply (response_without_keys Example.env_openai Example.date
           (Example.reply (Some Cases.bare_array))
           Example.Number_toString Example.Function_toString
           Example.rawStories 91 (tl Cases.bare_array)
           (VArray [VObject [(u "description", VString (u "B"));
                             (u "story_or_tweet_link",
                              VString (u "http://y"))]])).
  - split; [reflexivity|]. eexists. split; reflexivity.
  - vm_compute. reflexivity.
  - reflexivity.
Defined.

Lemma stories_is_the_fallback_witness :
  outcome (run Example.env_openai (Example.reply (Some Cases.null_first_key)))
  = Ok (example_header ++ [BULLET] ++ u " A" ++ [LF] ++ u "  http://x").
Proof.
  apply (stories_is_the_fallback Example.env_openai Example.date
           (Example.reply (Some Cases.null_first_key))
           Example.Number_toString Example.Function_toString
           Example.rawStories 123 (tl Cases.null_first_key)
           [(u "interestingTweetsOrStories", VNull);
            (u "stories",
             VArray [VObject [(u "headline", VString (u "A"));
                              (u "link", VString (u "http://x"))]])]
           [VObject [(u "headline", VString (u "A"));
                     (u "link", VString (u "http://x"))]]
           [[BULLET] ++ u " A" ++ [LF] ++ u "  http://x"]).
  - split; [reflexivity|]. eexists. split; reflexivity.
  - vm_compute. reflexivity.
  - reflexivity.
  - reflexivity.
  - reflexivity.
Defined.

Lemma first_key_has_priority_witness :
  outcome (run Example.env_openai (Example.reply (Some Cases.both_keys)))
  = Ok (example_header ++ [BULLET] ++ u " B" ++ [LF] ++ u "  http://y").
Proof.
  apply (first_key_has_priority Example.env_openai Example.date
           (Example.reply (Some Cases.both_keys))
           Example.Number_toString Example.Function_toString
           Example.rawStories 123 (tl Cases.both_keys)
           [(u "interestingTweetsOrStories",
             VArray [VObject [(u "description", VString (u "B"));
                              (u "story_or_tweet_link",
                               VString (u "http://y"))]]);
            (u "stories",
             VArray [VObject [(u "headline", VString (u "A"));
                              (u "link", VString (u "http://x"))]])]
           (VObject [(u "description", VString (u "B"));
                     (u "story_or_tweet_link", VString (u "http://y"))])
           []
           [[BULLET] ++ u " B" ++ [LF] ++ u "  http://y"]).
  - split; [reflexivity|]. eexists. split; reflexivity.
  - vm_compute. reflexivity.
  - reflexivity.
  - reflexivity.
Defined.

Lemma missing_fields_render_undefined_witness :
  renderItem Example.Number_toString Example.Function_toString
    (VObject [(u "title", VString (u "A"))])
  = Ok ([BULLET; 32] ++ u "undefined" ++ [LF; 32; 32] ++ u "undefined").
Proof.
  apply missing_fields_render_undefined; reflexivity.
Defined.

Lemma body_is_never_empty_witness :
  exists body,
    example_header ++ NO_STORIES = example_header ++ body
    /\ (body = NO_OUTPUT \/ body = NO_STORIES
        \/ exists rest, body = BULLET :: 32 :: rest).
Proof.
  apply (body_is_never_empty Example.env_openai Example.date
           (Example.reply (Some Example.bare))
           Example.Number_toString Example.Function_toString
           Example.rawStories (example_header ++ NO_STORIES)).
  vm_compute. reflexivity.
Defined.

Lemma fence_is_transparent_witness :
  outcome (run Example.env_openai (Example.reply (Some Example.fenced)))
  = outcome (run Example.env_openai (Example.reply (Some Example.bare))).
Proof.
  apply (fence_is_transparent Example.env_openai Example.date
           (Example.reply (Some Example.bare))
           (Example.reply (Some Example.fenced))
           Example.Number_toString Example.Function_toString
           Example.rawStories 123 (tl Example.bare) [] [LF] [LF] []);
    try reflexivity.
  - split; [reflexivity|]. eexists. split; reflexivity.
  - split; [reflexivity|]. eexists. split; reflexivity.
  - vm_compute. intros H.
    repeat (destruct H as [H|H]; [discriminate H|]). exact H.
Defined.

Lemma cut_text_is_an_error_witness :
  outcome (run Example.env_openai
             (Example.reply (Some Cases.cut_after_comma)))
  = Ok ERROR_DRAFT.
Proof.
  apply (cut_text_is_an_error Example.env_openai Example.date
           (Example.reply (Some Cases.cut_after_comma))
           Example.Number_toString Example.Function_toString
           Example.rawStories 123 (tl Cases.cut_after_comma)
           (q "{'stories':[{'headline':'A'}") 44 []).
  - split; [reflexivity|]. eexists. split; reflexivity.
  - reflexivity.
  - vm_compute. intros H.
    repeat (destruct H as [H|H]; [discriminate H|]). exact H.
  - reflexivity.
  - right. right. left. reflexivity.
Defined.

(** Keys that are empty strings list no source; the Firecrawl key alone
    lists the three web sites. *)
Example sources_examples :
  snd (Sources.getCronSources Cases.empty_keys) = Ok []
  /\ snd (Sources.getCronSources Cases.firecrawl_only)
     = Ok [Sources.CNX_SOFTWARE; Sources.ANDROIDPIMP; Sources.LILIPUTING].
Proof. split; reflexivity. Qed.

Lemma text_is_logged_before_parsing_witness :
  events (run Example.env_deepseek (Example.reply (Some Example.truncated)))
  = [ConsoleLog
       (u "Generating a post draft with raw stories (15 characters)...");
     ConsoleLog (u "Using Deepseek API...");
     ChatCompletionsCreate
       (request_for Example.env_deepseek Example.rawStories);
     ConsoleLog Example.truncated;
     ConsoleError (u "Error generating draft post") SyntaxError].
Proof.
  apply (text_is_logged_before_parsing Example.env_deepseek Example.date
           (Example.reply (Some Example.truncated))
           Example.Number_toString Example.Function_toString
           Example.rawStories 123 (tl Example.truncated)).
  split; [reflexivity|]. eexists. split; reflexivity.
Defined.
